(** * kv-test-perf: a shallow embedding of [main.go]

    The program is a load generator for a key-value store.  [main] builds a
    backend, runs a write phase and a read-verify phase of 100 goroutines
    each, bounded by a 10 second timeout context, and prints the two
    counters of a [Stats] value per phase.

    Layout of this file:
    - integers of fixed width, errors and [errors.Is], contexts;
    - [Stats] and its two methods;
    - the [KV] interface, the two adapters [sqlKV] and [redisKV];
    - the worker loops [runSet] and [runGet];
    - the interleaving semantics of the atomic counter updates;
    - [main];
    - the theorems. *)

From stdpp Require Import gmap strings list pretty.
From Stdlib Require Import ZArith Lia.

Local Open Scope Z_scope.

(** ** Fixed-width integers *)

(** [uint64] arithmetic wraps around. *)
Definition wrap64 (z : Z) : Z := z mod 2 ^ 64.

(** The conversion [int64(x)] of a [uint64] reinterprets the bits. *)
Definition to_int64 (z : Z) : Z := (z + 2 ^ 63) mod 2 ^ 64 - 2 ^ 63.

(** [time.Duration] is an [int64] count of nanoseconds. *)
Definition Second : Z := 1000000000.

(** The newline character written by [fmt.Println] and by the ["\n"] of
    the format strings. *)
Definition nl : string := String (Ascii.ascii_of_nat 10) EmptyString.

(** [%d] of an integer. *)
Definition fmt_d (z : Z) : string := pretty z.

(** ** Errors *)

(** The sentinel error values the program and its libraries compare
    against: [context.DeadlineExceeded], [context.Canceled],
    [sql.ErrNoRows] and [redis.Nil]. *)
Inductive sentinel : Type :=
| DeadlineExceeded
| Canceled
| ErrNoRows
| RedisNil.

Global Instance sentinel_eq_dec : EqDecision sentinel.
Proof. solve_decision. Defined.

(** A non-nil value of the interface type [error]: a sentinel, a plain
    message ([errors.New], [fmt.Errorf] without [%w]), or an error that
    wraps another one ([fmt.Errorf] with [%w], [*net.OpError], ...).  An
    error whose own [Is] method accepts a sentinel behaves under
    [errors.Is] like a wrapper of that sentinel and is modelled as one. *)
Inductive error : Type :=
| Sentinel (s : sentinel)
| errorString (msg : string)
| wrapError (msg : string) (inner : error).

(** The method [Error()].  A value of type [error] that may be [nil] is
    an [option error]. *)
Definition Error (e : error) : string :=
  match e with
  | Sentinel DeadlineExceeded => "context deadline exceeded"
  | Sentinel Canceled => "context canceled"
  | Sentinel ErrNoRows => "sql: no rows in result set"
  | Sentinel RedisNil => "redis: nil"
  | errorString msg => msg
  | wrapError msg _ => msg
  end.

(** The loop of [errors.Is] over the [Unwrap] chain. *)
Fixpoint is_chain (e : error) (target : sentinel) : bool :=
  match e with
  | Sentinel s => bool_decide (s = target)
  | errorString _ => false
  | wrapError _ inner => is_chain inner target
  end.

(** [errors.Is(err, target)] for a non-nil sentinel [target]: a nil [err]
    is not the target. *)
Definition errors_Is (err : option error) (target : sentinel) : bool :=
  match err with
  | None => false
  | Some e => is_chain e target
  end.

(** What [fmt.Println(err)] writes: the message, or [<nil>], and a newline. *)
Definition Println_error (err : option error) : string :=
  match err with
  | None => "<nil>" +:+ nl
  | Some e => Error e +:+ nl
  end.

(** [fmt.Errorf("unexpected value: %s", v)]: no [%w], so nothing is wrapped. *)
Definition Errorf_unexpected (v : string) : error :=
  errorString ("unexpected value: " +:+ v).

(** ** Contexts *)

(** A context as [main] builds them: [context.Background()] has no
    deadline; [context.WithTimeout] adds one.  Both cancel functions are
    dropped ([ctx, _ := ...]), so a context is done only through its
    deadline.  Times are readings of the monotonic clock in nanoseconds. *)
Record Context : Type := { deadline : option Z }.

Definition Background : Context := {| deadline := None |}.

(** [context.WithTimeout(parent, d)] called at time [now]: the earlier of
    the parent's deadline and [now + d]. *)
Definition WithTimeout (parent : Context) (now d : Z) : Context :=
  {| deadline := Some (match deadline parent with
                       | Some p => Z.min p (now + d)
                       | None => now + d
                       end) |}.

(** Whether the channel [ctx.Done()] is closed at time [now]. *)
Definition Done (ctx : Context) (now : Z) : bool :=
  match deadline ctx with
  | Some t => bool_decide (t ≤ now)
  | None => false
  end.

(** [ctx.Err()] at time [now]. *)
Definition ctx_Err (ctx : Context) (now : Z) : option error :=
  if Done ctx now then Some (Sentinel DeadlineExceeded) else None.

(** ** Stats *)

Record Stats : Type := { ok : Z; err : Z }.

(** The zero value [Stats{}]. *)
Definition Stats_zero : Stats := {| ok := 0; err := 0 |}.

(** [atomic.AddUint64(&s.ok, 1)] and [atomic.AddUint64(&s.err, 1)]. *)
Definition add_ok (s : Stats) : Stats := {| ok := wrap64 (ok s + 1); err := err s |}.
Definition add_err (s : Stats) : Stats := {| ok := ok s; err := wrap64 (err s + 1) |}.

(** [func (s *Stats) OK()]. *)
Definition Stats_OK (s : Stats) : Stats := add_ok s.

(** [func (s *Stats) Err(err error)]: the new counters and what is written
    to standard output. *)
Definition Stats_Err (s : Stats) (e : option error) : Stats * list string :=
  if errors_Is e DeadlineExceeded then (s, [])
  else (add_err s, [Println_error e]).

(** A [Stats] value holds two [uint64]. *)
Definition Stats_wf (s : Stats) : Prop :=
  0 ≤ ok s < 2 ^ 64 ∧ 0 ≤ err s < 2 ^ 64.

(** ** The client libraries

    [database/sql] with the [lib/pq] driver and [go-redis] are external
    collaborators.  Their handles are modelled by the state of the server
    they talk to, a clock, the time one round trip takes, the failure the
    server answers every call with when it is out of order, and the pool
    setting the constructors write. *)
Record Backend (S : Type) : Type := {
  clock : Z;              (* the monotonic clock *)
  rtt : Z;                (* duration of one call *)
  fault : option error;   (* e.g. connection refused *)
  MaxIdleConns : Z;       (* size of the idle connection pool *)
  data : S                (* what the server stores *)
}.
Arguments clock {S} _.
Arguments rtt {S} _.
Arguments fault {S} _.
Arguments MaxIdleConns {S} _.
Arguments data {S} _.

Definition at_time {S : Type} (t : Z) (b : Backend S) : Backend S :=
  {| clock := t; rtt := rtt b; fault := fault b;
     MaxIdleConns := MaxIdleConns b; data := data b |}.

Definition with_data {S : Type} (x : S) (b : Backend S) : Backend S :=
  {| clock := clock b; rtt := rtt b; fault := fault b;
     MaxIdleConns := MaxIdleConns b; data := x |}.

(** One call under [ctx]: the call takes [rtt].  When the deadline of
    [ctx] has passed by the time it would complete, the call is cancelled,
    leaves the server as it was and reports [ctx.Err()]; a server out of
    order reports its failure; otherwise [op] runs on the server. *)
Definition roundtrip {S R : Type} (ctx : Context) (b : Backend S)
    (failed : error → R) (op : S → R * S) : R * Backend S :=
  let t := clock b + rtt b in
  if Done ctx t then (failed (Sentinel DeadlineExceeded), at_time t b)
  else
    match fault b with
    | Some e => (failed e, at_time t b)
    | None => let '(r, x) := op (data b) in (r, at_time t (with_data x b))
    end.

(** The PostgreSQL server: the table [kv], when it exists, maps the
    primary key [k] to [v]. *)
Abbreviation pg := (option (gmap string string)).

Definition no_table : error := errorString "pq: relation kv does not exist".

(** [db.ExecContext] of
    [drop table if exists kv; create unlogged table kv(k varchar primary key, v varchar)]. *)
Definition exec_recreate (ctx : Context) (db : Backend pg) : option error * Backend pg :=
  roundtrip ctx db Some (λ _, (None, Some ∅)).

(** [db.ExecContext] of
    [insert into kv(k, v) values($1, $2) on conflict (k) do update set v = excluded.v]. *)
Definition exec_upsert (ctx : Context) (db : Backend pg) (key value : string)
    : option error * Backend pg :=
  roundtrip ctx db Some (λ t,
    match t with
    | None => (Some no_table, None)
    | Some rows => (None, Some (<[key := value]> rows))
    end).

(** [db.QueryRowContext(ctx, `select v from kv where k = $1`, key).Scan(&value)]
    on a [value] that holds the empty string: the new [value] and the error.
    [Scan] reports [sql.ErrNoRows] when no row matches and leaves [value]
    untouched whenever it fails. *)
Definition query_scan (ctx : Context) (db : Backend pg) (key : string)
    : (string * option error) * Backend pg :=
  roundtrip ctx db (λ e, ("", Some e)) (λ t,
    match t with
    | None => (("", Some no_table), None)
    | Some rows =>
        match rows !! key with
        | Some v => ((v, None), Some rows)
        | None => (("", Some (Sentinel ErrNoRows)), Some rows)
        end
    end).

(** [client.Set(ctx, key, value, 0).Err()]: no expiration. *)
Definition redis_Set (ctx : Context) (c : Backend (gmap string string))
    (key value : string) : option error * Backend (gmap string string) :=
  roundtrip ctx c Some (λ m, (None, <[key := value]> m)).

(** [client.Get(ctx, key).Result()]: go-redis reports a missing key as the
    error [redis.Nil] with an empty value. *)
Definition redis_Get (ctx : Context) (c : Backend (gmap string string))
    (key : string) : (string * option error) * Backend (gmap string string) :=
  roundtrip ctx c (λ e, ("", Some e)) (λ m,
    match m !! key with
    | Some v => ((v, None), m)
    | None => (("", Some (Sentinel RedisNil)), m)
    end).

(** [db.SetMaxIdleConns(30)] and the [MaxIdleConns: 30] of [redis.Options]. *)
Definition SetMaxIdleConns {S : Type} (k : Z) (b : Backend S) : Backend S :=
  {| clock := clock b; rtt := rtt b; fault := fault b;
     MaxIdleConns := k; data := data b |}.

(** [sql.Open(driverName, uri)] on the server [srv]: the blank import of
    [lib/pq] registers the driver ["postgres"] and no other. *)
Definition sql_Open (driverName : string) (srv : Backend pg) : Backend pg + error :=
  if bool_decide (driverName = "postgres") then inl srv
  else inr (errorString ("sql: unknown driver " +:+ driverName)).

(** ** The interface [KV] *)

Class KV (B : Type) : Type := {
  Name : B → string;
  Setup : Context → B → option error * B;
  KV_Set : Context → string → string → B → option error * B;
  KV_Get : Context → string → B → (string * option error) * B;
}.

(** The clock the implementation runs against. *)
Class Timed (B : Type) : Type := now : B → Z.

(** *** [sqlKV] *)

Record sqlKV : Type := { db : Backend pg }.

(** [NewSQLKV(uri)], where [srv] is the server that [uri] names. *)
Definition NewSQLKV (srv : Backend pg) : sqlKV + error :=
  match sql_Open "postgres" srv with
  | inr e => inr e
  | inl h => inl {| db := SetMaxIdleConns 30 h |}
  end.

Definition sqlKV_Name (s : sqlKV) : string := "postgresql".

Definition sqlKV_Setup (ctx : Context) (s : sqlKV) : option error * sqlKV :=
  let '(e, h) := exec_recreate ctx (db s) in (e, {| db := h |}).

Definition sqlKV_Set (ctx : Context) (key value : string) (s : sqlKV)
    : option error * sqlKV :=
  let '(e, h) := exec_upsert ctx (db s) key value in (e, {| db := h |}).

Definition sqlKV_Get (ctx : Context) (key : string) (s : sqlKV)
    : (string * option error) * sqlKV :=
  let '((value, e), h) := query_scan ctx (db s) key in
  let e := if errors_Is e ErrNoRows then None else e in
  ((value, e), {| db := h |}).

Global Instance sqlKV_KV : KV sqlKV := {|
  Name := sqlKV_Name;
  Setup := sqlKV_Setup;
  KV_Set := sqlKV_Set;
  KV_Get := sqlKV_Get;
|}.

Global Instance sqlKV_Timed : Timed sqlKV := λ s, clock (db s).

(** *** [redisKV] *)

Record redisKV : Type := { client : Backend (gmap string string) }.

(** [NewRedisKV(addr)], where [srv] is the server at [addr]. *)
Definition NewRedisKV (srv : Backend (gmap string string)) : redisKV + error :=
  inl {| client := SetMaxIdleConns 30 srv |}.

Definition redisKV_Name (r : redisKV) : string := "redis".

Definition redisKV_Setup (ctx : Context) (r : redisKV) : option error * redisKV :=
  (None, r).

Definition redisKV_Set (ctx : Context) (key value : string) (r : redisKV)
    : option error * redisKV :=
  let '(e, c) := redis_Set ctx (client r) key value in (e, {| client := c |}).

Definition redisKV_Get (ctx : Context) (key : string) (r : redisKV)
    : (string * option error) * redisKV :=
  let '(res, c) := redis_Get ctx (client r) key in (res, {| client := c |}).

Global Instance redisKV_KV : KV redisKV := {|
  Name := redisKV_Name;
  Setup := redisKV_Setup;
  KV_Set := redisKV_Set;
  KV_Get := redisKV_Get;
|}.

Global Instance redisKV_Timed : Timed redisKV := λ r, clock (client r).

(** ** The workers *)

(** What a worker does, in program order. *)
Inductive event : Type :=
| EvSelect (done : bool)                          (* the [select] on [ctx.Done()] *)
| EvSet (key value : string) (e : option error)   (* [kv.Set] returned [e] *)
| EvGet (key v : string) (e : option error)       (* [kv.Get] returned [(v, e)] *)
| EvOK                                            (* [s.OK()] *)
| EvErr (e : option error).                       (* [s.Err(e)] *)

(** What a worker acts on: the backend, the shared [Stats], standard
    output, and the record of its own steps. *)
Record World (B : Type) : Type := {
  backend : B;
  stats : Stats;
  stdout : list string;
  trace : list event
}.
Arguments backend {B} _.
Arguments stats {B} _.
Arguments stdout {B} _.
Arguments trace {B} _.

(** How one pass through a [for] body ends: [return], or the next pass
    (the end of the body and [continue] alike). *)
Inductive flow (A : Type) : Type :=
| Return (a : A)
| Continue (a : A).
Arguments Return {A} _.
Arguments Continue {A} _.

(** A [for { ... }] loop run for at most [fuel] passes: [None] when the
    loop is still running after them. *)
Fixpoint loop {A : Type} (body : A → flow A) (fuel : nat) (a : A) : option A :=
  match fuel with
  | O => None
  | S fuel' =>
      match body a with
      | Return a' => Some a'
      | Continue a' => loop body fuel' a'
      end
  end.

Section Workers.
Context {B : Type} `{!KV B} `{!Timed B}.

Definition log (ev : event) (w : World B) : World B :=
  {| backend := backend w; stats := stats w; stdout := stdout w;
     trace := trace w ++ [ev] |}.

(** [s.OK()] on the shared [Stats]. *)
Definition do_OK (w : World B) : World B :=
  {| backend := backend w; stats := Stats_OK (stats w); stdout := stdout w;
     trace := trace w ++ [EvOK] |}.

(** [s.Err(e)] on the shared [Stats]. *)
Definition do_Err (e : option error) (w : World B) : World B :=
  let '(s, out) := Stats_Err (stats w) e in
  {| backend := backend w; stats := s; stdout := stdout w ++ out;
     trace := trace w ++ [EvErr e] |}.

(** [select { case <-ctx.Done(): ...; default: }]: whether the channel
    is closed now. *)
Definition select_Done (ctx : Context) (w : World B) : bool * World B :=
  let d := Done ctx (now (backend w)) in (d, log (EvSelect d) w).

Definition do_Set (ctx : Context) (key value : string) (w : World B)
    : option error * World B :=
  let '(e, b) := KV_Set ctx key value (backend w) in
  (e, {| backend := b; stats := stats w; stdout := stdout w;
         trace := trace w ++ [EvSet key value e] |}).

Definition do_Get (ctx : Context) (key : string) (w : World B)
    : (string * option error) * World B :=
  let '((v, e), b) := KV_Get ctx key (backend w) in
  ((v, e), {| backend := b; stats := stats w; stdout := stdout w;
              trace := trace w ++ [EvGet key v e] |}).

(** The body of the loop of [runSet]. *)
Definition runSet_body (ctx : Context) (key value : string) (w : World B)
    : flow (World B) :=
  let '(d, w) := select_Done ctx w in
  if d then Return w
  else
    let '(e, w) := do_Set ctx key value w in
    match e with
    | Some _ => Continue (do_Err e w)
    | None => Continue (do_OK w)
    end.

(** The body of the loop of [runGet]. *)
Definition runGet_body (ctx : Context) (key value : string) (w : World B)
    : flow (World B) :=
  let '(d, w) := select_Done ctx w in
  if d then Return w
  else
    let '((v, e), w) := do_Get ctx key w in
    match e with
    | Some _ => Continue (do_Err e w)
    | None =>
        if bool_decide (v ≠ value)
        then Continue (do_Err (Some (Errorf_unexpected v)) w)
        else Continue (do_OK w)
    end.

Definition key_of (i : Z) : string := "key_" +:+ fmt_d i.
Definition value_of (i : Z) : string := "value_" +:+ fmt_d i.

(** [runSet(ctx, kv, i, s)], for at most [fuel] passes of its loop. *)
Definition runSet (ctx : Context) (i : Z) (fuel : nat) (w : World B)
    : option (World B) :=
  loop (runSet_body ctx (key_of i) (value_of i)) fuel w.

(** [runGet(ctx, kv, i, s)], for at most [fuel] passes of its loop. *)
Definition runGet (ctx : Context) (i : Z) (fuel : nat) (w : World B)
    : option (World B) :=
  loop (runGet_body ctx (key_of i) (value_of i)) fuel w.
End Workers.

(** A world around a backend, before the worker has done anything. *)
Definition fresh {B : Type} (b : B) (s : Stats) : World B :=
  {| backend := b; stats := s; stdout := []; trace := [] |}.

(** A server for the examples: the clock reads [t], a call takes one
    tick, the server is in order. *)
Definition server {S : Type} (t : Z) (x : S) : Backend S :=
  {| clock := t; rtt := 1; fault := None; MaxIdleConns := 0; data := x |}.

(** A server that refuses every connection. *)
Definition refused : error :=
  errorString "dial tcp 127.0.0.1:5432: connect: connection refused".
Definition server_down {S : Type} (t : Z) (x : S) : Backend S :=
  {| clock := t; rtt := 1; fault := Some refused; MaxIdleConns := 0; data := x |}.

Definition pg_at (t : Z) (rows : pg) : sqlKV := {| db := server t rows |}.
Definition redis_at (t : Z) (m : gmap string string) : redisKV :=
  {| client := server t m |}.

(** A context whose deadline is at time [t]. *)
Definition until (t : Z) : Context := WithTimeout Background 0 t.

(** ** Concurrent calls on one [Stats]

    The goroutines of a phase share one [Stats].  Each call of [OK] or
    [Err] is a short sequence of indivisible actions: a write to standard
    output, or one [atomic.AddUint64]. *)
Inductive call : Type :=
| CallOK
| CallErr (e : option error).

Inductive action : Type :=
| ActPrint (line : string)
| ActAddOk
| ActAddErr.

(** The actions of [s.OK()] and of [s.Err(e)], in program order. *)
Definition actions_of (c : call) : list action :=
  match c with
  | CallOK => [ActAddOk]
  | CallErr e =>
      if errors_Is e DeadlineExceeded then []
      else [ActPrint (Println_error e); ActAddErr]
  end.

(** What the goroutines share: the counters and standard output. *)
Definition shared : Type := Stats * list string.

Definition perform (a : action) (σ : shared) : shared :=
  match a with
  | ActPrint line => (σ.1, σ.2 ++ [line])
  | ActAddOk => (add_ok σ.1, σ.2)
  | ActAddErr => (add_err σ.1, σ.2)
  end.

(** The actions each goroutine still has to perform. *)
Definition pool : Type := list (list action).

(** The scheduler picks any goroutine that has an action left and lets it
    perform the first one. *)
Inductive step : pool * shared → pool * shared → Prop :=
| step_pick (before after : pool) (a : action) (rest : list action) (σ : shared) :
    step (before ++ (a :: rest) :: after, σ) (before ++ rest :: after, perform a σ).

(** An interleaving: any number of steps. *)
Definition runs_to : pool * shared → pool * shared → Prop := rtc step.

(** Every goroutine has performed all of its actions. *)
Definition finished (p : pool) : Prop := Forall (λ l, l = []) p.

(** A call that adds to a counter: [OK], and [Err] of an error that is
    not discarded. *)
Definition counted_ok (c : call) : bool :=
  match c with CallOK => true | CallErr _ => false end.
Definition counted_err (c : call) : bool :=
  match c with
  | CallOK => false
  | CallErr e => negb (errors_Is e DeadlineExceeded)
  end.

(** The pool of goroutines that make the given calls. *)
Definition pool_of (calls : list (list call)) : pool :=
  map (λ cs, cs ≫= actions_of) calls.

(** The number of calls, over all goroutines, that [f] selects. *)
Definition tally (f : call → bool) (calls : list (list call)) : Z :=
  Z.of_nat (length (filter (λ c, f c = true) (concat calls))).

(** The goroutines one after the other: one of the interleavings. *)
Definition in_turn (p : pool) (σ : shared) : shared :=
  foldl (λ acc a, perform a acc) σ (concat p).

(** ** [main] *)

(** The two workloads [main] starts goroutines for. *)
Inductive workload : Type := RunSet | RunGet.

(** What [main] does, in program order.  The [Stats] variable [s] of a
    phase is named by the number of the phase: [&s] is that name. *)
Inductive mevent : Type :=
| MSetup                                               (* [kv.Setup(ctx)] *)
| MPrintf (line : string)
| MGo (f : workload) (ctx : Context) (i : Z) (s : nat) (* [go f(ctx, kv, i, &s)] *)
| MAwait (ctx : Context).                              (* [<-ctx.Done()] *)

(** How [main] ends: it returns, or it panics. *)
Inductive exit : Type :=
| Returns
| Panics (e : error)
| PanicsDivide.        (* runtime error: integer divide by zero *)

(** What a phase takes from outside: the clock when the context is
    created, at [time.Now()] and when [main] wakes up from
    [<-ctx.Done()]; and the counters as each of the four statements that
    print them finds them (the goroutines are not joined). *)
Record Observed : Type := {
  t_ctx : Z;
  t_start : Z;
  t_done : Z;
  at_total : Stats;
  at_ops : Stats;
  at_ok : Stats;
  at_err : Stats
}.

(** [const n = 100] and [const d = 10 * time.Second]. *)
Definition n : Z := 100.
Definition d : Z := 10 * Second.

(** [for i := 0; i < n; i++ { body }]. *)
Fixpoint for_i (fuel : nat) (i bound : Z) (body : Z → mevent) : list mevent :=
  match fuel with
  | O => []
  | S fuel' =>
      if bool_decide (i < bound) then body i :: for_i fuel' (i + 1) bound body
      else []
  end.

(** The sum [s.ok+s.err] of two [uint64]. *)
Definition total (s : Stats) : Z := wrap64 (ok s + err s).

(** [time.Since(start)] when [main] wakes up: the difference of the two
    readings, which [Time.Sub] keeps within [time.Duration]. *)
Definition elapsed (o : Observed) : Z :=
  Z.max (- 2 ^ 63) (Z.min (2 ^ 63 - 1) (t_done o - t_start o)).

(** [int64(t/time.Second)]: the division of Go truncates, and the
    conversion of a [time.Duration] keeps its value. *)
Definition whole_seconds (t : Z) : Z := t ÷ Second.

(** [int64(s.ok+s.err)/int64(t/time.Second)] for a divisor that is not
    zero. *)
Definition ops (s : Stats) (t : Z) : Z :=
  to_int64 (to_int64 (total s) ÷ whole_seconds t).

(** One of the two blocks of [main]: the events and, if the block
    panics, how. *)
Definition phase (title : string) (f : workload) (s : nat) (parent : Context)
    (o : Observed) : list mevent * option exit :=
  let ctx := WithTimeout parent (t_ctx o) d in
  let t := elapsed o in
  let upto_total :=
    [MPrintf ("==== " +:+ title +:+ " ====" +:+ nl)]
    ++ for_i (Z.to_nat n) 0 n (λ i, MGo f ctx i s)
    ++ [MAwait ctx;
        MPrintf ("total: " +:+ fmt_d (total (at_total o)) +:+ nl)] in
  if bool_decide (whole_seconds t = 0) then (upto_total, Some PanicsDivide)
  else
    (upto_total ++
     [MPrintf ("ops: " +:+ fmt_d (ops (at_ops o) t) +:+ nl);
      MPrintf ("ok: " +:+ fmt_d (ok (at_ok o)) +:+ nl);
      MPrintf ("err: " +:+ fmt_d (err (at_err o)) +:+ nl)],
     None).

(** [main] from the result of the constructor on. *)
Definition main_from {B : Type} `{!KV B} (made : B + error) (o1 o2 : Observed)
    : list mevent * exit :=
  match made with
  | inr e => ([], Panics e)
  | inl kv =>
      let ctx := Background in
      let '(e, kv) := Setup ctx kv in
      match e with
      | Some e => ([MSetup], Panics e)
      | None =>
          let hd := [MSetup; MPrintf ("backend: " +:+ Name kv +:+ nl)] in
          let '(ev1, p1) := phase "set" RunSet 1 ctx o1 in
          match p1 with
          | Some x => (hd ++ ev1, x)
          | None =>
              let '(ev2, p2) := phase "get" RunGet 2 ctx o2 in
              match p2 with
              | Some x => (hd ++ ev1 ++ ev2, x)
              | None => (hd ++ ev1 ++ ev2, Returns)
              end
          end
      end
  end.

(** [main] against the PostgreSQL server [srv]. *)
Definition main (srv : Backend pg) (o1 o2 : Observed) : list mevent * exit :=
  main_from (NewSQLKV srv) o1 o2.

(** The goroutines a run starts. *)
Definition is_go (ev : mevent) : bool :=
  match ev with MGo _ _ _ _ => true | _ => false end.
Definition goroutines (evs : list mevent) : list mevent :=
  filter (λ ev, is_go ev = true) evs.

(** A phase that ran its ten seconds: the clock read zero when the
    context was made, and the statements found the counters at [s]. *)
Definition observed_after (t : Z) (s : Stats) : Observed :=
  {| t_ctx := 0; t_start := 0; t_done := t;
     at_total := s; at_ops := s; at_ok := s; at_err := s |}.

(** ** Notions the statements use *)

(** The additions to the success counter, and to the error counter, that
    the goroutines of a pool still have to perform. *)
Definition is_add_ok (a : action) : bool :=
  match a with ActAddOk => true | _ => false end.
Definition is_add_err (a : action) : bool :=
  match a with ActAddErr => true | _ => false end.
Definition pending (f : action → bool) (p : pool) : Z :=
  Z.of_nat (length (filter (λ a, f a = true) (concat p))).

(** What the interleavings preserve: each counter and the additions to
    it that are still pending make up the number of calls that count,
    modulo the size of a [uint64]. *)
Definition balanced (k m : Z) (x : pool * shared) : Prop :=
  0 ≤ ok x.2.1 < 2 ^ 64 ∧ 0 ≤ err x.2.1 < 2 ^ 64 ∧
  (ok x.2.1 + pending is_add_ok x.1) mod 2 ^ 64 = k mod 2 ^ 64 ∧
  (err x.2.1 + pending is_add_err x.1) mod 2 ^ 64 = m mod 2 ^ 64.

(** A backend call, and a call of [OK] or [Err], in a trace. *)
Definition is_call (ev : event) : bool :=
  match ev with EvSet _ _ _ | EvGet _ _ _ => true | _ => false end.
Definition is_record (ev : event) : bool :=
  match ev with EvOK | EvErr _ => true | _ => false end.

(** The events of passes through a worker loop that went on to the next
    pass: a check that found the context not done, then one backend call,
    then one call on the [Stats]. *)
Inductive passes : list event → Prop :=
| passes_nil : passes []
| passes_cons (c r : event) (t : list event) :
    is_call c = true → is_record r = true → passes t →
    passes (EvSelect false :: c :: r :: t).

(** A pass returns exactly when its check finds the context done, and it
    does nothing else then; otherwise it makes one backend call and one
    call on the [Stats], and goes on. *)
Definition pass_shape {B : Type} `{!Timed B} (ctx : Context)
    (body : World B → flow (World B)) : Prop :=
  ∀ w,
    if Done ctx (now (backend w))
    then body w = Return (log (EvSelect true) w)
    else ∃ w' c r,
      body w = Continue w' ∧ is_call c = true ∧ is_record r = true ∧
      trace w' = trace w ++ [EvSelect false; c; r].

(** The success counter, or the error counter, went up by one and the
    other counter stayed. *)
Definition adds_to_ok (s s' : Stats) : Prop :=
  ok s' = wrap64 (ok s + 1) ∧ err s' = err s.
Definition adds_to_err (s s' : Stats) : Prop :=
  ok s' = ok s ∧ err s' = wrap64 (err s + 1).

(** Several calls of [Set] in a row under [ctx], whatever they return. *)
Definition set_all {B : Type} `{!KV B} (ctx : Context) (kvs : list (string * string))
    (b : B) : B :=
  foldl (λ acc kv, (KV_Set ctx kv.1 kv.2 acc).2) b kvs.

(** A call on [b] completes before the deadline of [ctx]. *)
Definition in_time {S : Type} (ctx : Context) (b : Backend S) : Prop :=
  Done ctx (clock b + rtt b) = false.

(** The table [kv] of the server behind [s] holds no row for [key]. *)
Definition sql_absent (key : string) (s : sqlKV) : Prop :=
  ∃ rows, data (db s) = Some rows ∧ rows !! key = None.


(** [e] is the sentinel [target] or wraps it, at any depth. *)
Inductive wraps (target : sentinel) : error → Prop :=
| wraps_here : wraps target (Sentinel target)
| wraps_inner (msg : string) (e : error) :
    wraps target e → wraps target (wrapError msg e).

(** The error [err] signals that the deadline of a context had passed. *)
Definition signals_deadline (err : option error) : Prop :=
  ∃ e, err = Some e ∧ wraps DeadlineExceeded e.

(** The error [err] signals that a context was done, through its
    deadline or through a cancellation. *)
Definition signals_cancellation (err : option error) : Prop :=
  ∃ e, err = Some e ∧ (wraps DeadlineExceeded e ∨ wraps Canceled e).

(** ** Notions for the accounts of a worker and of the log *)

(** The call on the [Stats] that ends a pass of [runSet] whose [Set]
    returned [e], and a pass of [runGet] that expects [value] and whose
    [Get] returned [(v, e)]. *)
Definition set_record (e : option error) : event :=
  match e with
  | Some _ => EvErr e
  | None => EvOK
  end.
Definition get_record (value v : string) (e : option error) : event :=
  match e with
  | Some _ => EvErr e
  | None =>
      if bool_decide (v ≠ value) then EvErr (Some (Errorf_unexpected v))
      else EvOK
  end.

(** What a recorded call on the [Stats] does to the counters and to
    standard output; the other events do nothing to them. *)
Definition record_effect (σ : shared) (ev : event) : shared :=
  match ev with
  | EvOK => (Stats_OK σ.1, σ.2)
  | EvErr e => ((Stats_Err σ.1 e).1, σ.2 ++ (Stats_Err σ.1 e).2)
  | _ => σ
  end.
Definition replay (t : list event) (σ : shared) : shared :=
  foldl record_effect σ t.

(** The calls of [OK], the calls of [Err] that are counted, and those
    that are discarded. *)
Definition is_success (ev : event) : bool :=
  match ev with EvOK => true | _ => false end.
Definition is_counted (ev : event) : bool :=
  match ev with
  | EvErr e => negb (errors_Is e DeadlineExceeded)
  | _ => false
  end.
Definition is_discarded (ev : event) : bool :=
  match ev with
  | EvErr e => errors_Is e DeadlineExceeded
  | _ => false
  end.

(** A pass that, besides having the shape of a pass, leaves the counters
    and the output as its one call on the [Stats] makes them. *)
Definition pass_records {B : Type} `{!Timed B} (ctx : Context)
    (body : World B → flow (World B)) : Prop :=
  ∀ w,
    if Done ctx (now (backend w))
    then body w = Return (log (EvSelect true) w)
    else ∃ w' c r,
      body w = Continue w' ∧ is_call c = true ∧ is_record r = true ∧
      trace w' = trace w ++ [EvSelect false; c; r] ∧
      (stats w', stdout w') = record_effect (stats w, stdout w) r.

(** How many events of a trace [f] selects. *)
Definition count (f : event → bool) (t : list event) : Z :=
  Z.of_nat (length (filter (λ ev, f ev = true) t)).

(** The lines the calls of [Err] in a trace write. *)
Definition lines_of (t : list event) : list string :=
  t ≫= λ ev,
    match ev with
    | EvErr e => if errors_Is e DeadlineExceeded then [] else [Println_error e]
    | _ => []
    end.

(** In what a goroutine has left to do, every write is directly followed
    by the addition it announces; or the goroutine has written and the
    addition comes first. *)
Definition is_print (a : action) : bool :=
  match a with ActPrint _ => true | _ => false end.
Fixpoint paired (l : list action) : bool :=
  match l with
  | [] => true
  | ActAddOk :: rest => paired rest
  | ActPrint _ :: ActAddErr :: rest => paired rest
  | _ => false
  end.
Definition midway (l : list action) : bool :=
  paired l || match l with
              | ActAddErr :: rest => paired rest
              | _ => false
              end.

(** The lines [main] prints, in order. *)
Definition printed (evs : list mevent) : list string :=
  evs ≫= λ ev, match ev with MPrintf line => [line] | _ => [] end.

(** The five lines a phase prints when it runs to its end. *)
Definition report (title : string) (o : Observed) : list string :=
  ["==== " +:+ title +:+ " ====" +:+ nl;
   "total: " +:+ fmt_d (total (at_total o)) +:+ nl;
   "ops: " +:+ fmt_d (ops (at_ops o) (elapsed o)) +:+ nl;
   "ok: " +:+ fmt_d (ok (at_ok o)) +:+ nl;
   "err: " +:+ fmt_d (err (at_err o)) +:+ nl].

(** * Theorems *)

(** ** Integers *)

Lemma wrap64_small (z : Z) : 0 ≤ z < 2 ^ 64 → wrap64 z = z.
Proof. intros Hz. unfold wrap64. by apply Z.mod_small. Qed.

Lemma wrap64_range (z : Z) : 0 ≤ wrap64 z < 2 ^ 64.
Proof. unfold wrap64. apply Z.mod_pos_bound. lia. Qed.

Lemma to_int64_small (z : Z) : - 2 ^ 63 ≤ z < 2 ^ 63 → to_int64 z = z.
Proof. intros Hz. unfold to_int64. rewrite Z.mod_small; lia. Qed.

(** ** Errors *)

Lemma is_chain_wraps (e : error) (target : sentinel) :
  is_chain e target = true ↔ wraps target e.
Proof.
  induction e as [s | msg | msg inner IH]; simpl.
  - rewrite bool_decide_eq_true. split.
    + intros ->. constructor.
    + by inversion 1.
  - split; [done | inversion 1].
  - rewrite IH. split.
    + by constructor.
    + by inversion 1.
Qed.

Lemma errors_Is_signals (err : option error) :
  errors_Is err DeadlineExceeded = true ↔ signals_deadline err.
Proof.
  unfold signals_deadline. destruct err as [e|]; simpl.
  - rewrite is_chain_wraps. split.
    + intros Hw. by exists e.
    + by intros (e' & [= <-] & Hw).
  - split; [done | by intros (e' & ? & _)].
Qed.

Lemma errors_Is_not_signals (err : option error) :
  errors_Is err DeadlineExceeded = false ↔ ¬ signals_deadline err.
Proof.
  rewrite <- errors_Is_signals. by destruct (errors_Is err DeadlineExceeded).
Qed.

(** The only error a context of this program reports is
    [context.DeadlineExceeded]. *)
Lemma ctx_Err_done (ctx : Context) (t : Z) :
  Done ctx t = true → ctx_Err ctx t = Some (Sentinel DeadlineExceeded).
Proof. intros Hd. unfold ctx_Err. by rewrite Hd. Qed.

(** ** [Stats] *)

(** C1, as amended.  [Stats.Err] discards an error exactly when it is
    the sentinel [context.DeadlineExceeded] or wraps it; that sentinel is
    what a context of this program that is done reports.  The counters
    stay as they are and nothing is written.  For every other error,
    [context.Canceled] and the nil error included, exactly one line is
    written, the error counter goes up by one (as a [uint64]) and the
    success counter stays. *)
Theorem Stats_Err_discards_deadline (s : Stats) (e : option error) :
  (signals_deadline e → Stats_Err s e = (s, [])) ∧
  (¬ signals_deadline e →
     Stats_Err s e = ({| ok := ok s; err := (err s + 1) mod 2 ^ 64 |},
                      [Println_error e])) ∧
  (∀ (ctx : Context) (t : Z) (msg : string) (e' : error),
     Done ctx t = true → ctx_Err ctx t = Some e' →
     Stats_Err s (Some e') = (s, []) ∧
     Stats_Err s (Some (wrapError msg e')) = (s, [])).
Proof.
  split; [|split].
  - intros Hs. apply errors_Is_signals in Hs. unfold Stats_Err. by rewrite Hs.
  - intros Hs. apply errors_Is_not_signals in Hs. unfold Stats_Err. by rewrite Hs.
  - intros ctx t msg e' Hd He. rewrite (ctx_Err_done _ _ Hd) in He.
    by injection He as <-.
Qed.

Lemma Stats_Err_discards_deadline_witness :
  let timeout := wrapError "upsert: context deadline exceeded" (Sentinel DeadlineExceeded) in
  let s := {| ok := 4; err := 2 |} in
  Stats_Err s (Some timeout) = (s, []) ∧
  Stats_Err s (Some refused) =
    ({| ok := 4; err := 3 |},
     ["dial tcp 127.0.0.1:5432: connect: connection refused" +:+ nl]) ∧
  Stats_Err s (ctx_Err (until 5) 7) = (s, []).
Proof.
  intros timeout s.
  destruct (Stats_Err_discards_deadline s (Some timeout)) as (Hyes & _ & _).
  destruct (Stats_Err_discards_deadline s (Some refused)) as (_ & Hno & Hctx).
  split; [|split].
  - apply Hyes. exists timeout. split; [done | repeat constructor].
  - rewrite Hno; [done |].
    intros (e & [= <-] & Hw). inversion Hw.
  - apply (Hctx (until 5) 7 "" (Sentinel DeadlineExceeded)); reflexivity.
Defined.

(** C1, as stated, fails for [context.Canceled]: the error signals a
    cancellation, and [Stats.Err] writes its line and counts it. *)
Lemma Stats_Err_counts_Canceled :
  let s := {| ok := 4; err := 2 |} in
  let e := Some (Sentinel Canceled) in
  signals_cancellation e ∧
  Stats_Err s e = ({| ok := 4; err := 3 |}, ["context canceled" +:+ nl]) ∧
  Stats_Err s e ≠ (s, []).
Proof.
  intros s e. split; [| split; [reflexivity | discriminate]].
  exists (Sentinel Canceled). split; [done |]. right. constructor.
Qed.

(** ** The adapters *)

Lemma roundtrip_served {S R : Type} (ctx : Context) (b : Backend S)
    (failed : error → R) (op : S → R * S) :
  in_time ctx b → fault b = None →
  roundtrip ctx b failed op =
    ((op (data b)).1, at_time (clock b + rtt b) (with_data (op (data b)).2 b)).
Proof.
  unfold in_time, roundtrip. intros -> ->. by destruct (op (data b)).
Qed.

(** What a call leaves alone, whatever it returns. *)
Lemma roundtrip_frame {S R : Type} (ctx : Context) (b : Backend S)
    (failed : error → R) (op : S → R * S) :
  let b' := (roundtrip ctx b failed op).2 in
  clock b' = clock b + rtt b ∧ rtt b' = rtt b ∧ fault b' = fault b ∧
  MaxIdleConns b' = MaxIdleConns b ∧
  (data b' = data b ∨ data b' = (op (data b)).2).
Proof.
  unfold roundtrip. destruct (Done ctx _); [simpl; auto 10 |].
  destruct (fault b) eqn:Hf; [simpl; auto 10 |].
  destruct (op (data b)); simpl. auto 10.
Qed.

(** A call that did not fail was served. *)
Lemma sqlKV_Set_served (ctx : Context) (key value : string) (s s' : sqlKV) :
  sqlKV_Set ctx key value s = (None, s') →
  ∃ rows, data (db s) = Some rows ∧
          db s' = at_time (clock (db s) + rtt (db s))
                          (with_data (Some (<[key := value]> rows)) (db s)) ∧
          fault (db s) = None.
Proof.
  unfold sqlKV_Set, exec_upsert, roundtrip.
  destruct (Done ctx _); [done |].
  destruct (fault (db s)) eqn:Hf; [done |].
  destruct (data (db s)) as [rows|] eqn:Hd; [| done].
  intros [= <-]. by exists rows.
Qed.

Lemma sqlKV_Set_frame (ctx : Context) (key value : string) (s : sqlKV) :
  let s' := (sqlKV_Set ctx key value s).2 in
  rtt (db s') = rtt (db s) ∧ fault (db s') = fault (db s) ∧
  ∀ rows, data (db s) = Some rows →
    data (db s') = Some rows ∨ data (db s') = Some (<[key := value]> rows).
Proof.
  unfold sqlKV_Set, exec_upsert.
  pose proof (roundtrip_frame ctx (db s) Some
    (λ t, match t with
          | None => (Some no_table, None)
          | Some rows => (None, Some (<[key := value]> rows))
          end)) as Hfr.
  destruct (roundtrip _ _ _ _) as [e h]. simpl in *.
  destruct Hfr as (_ & Hr & Hf & _ & Hd).
  split; [done |]. split; [done |].
  intros rows Hrows. rewrite Hrows in Hd. simpl in Hd. destruct Hd; auto.
Qed.

(** Calls of [Set] on other keys leave the row of [key] as it is. *)
Lemma sqlKV_set_all_others (ctx : Context) (key : string)
    (kvs : list (string * string)) (s : sqlKV) (rows : gmap string string) :
  Forall (λ kv, kv.1 ≠ key) kvs →
  data (db s) = Some rows →
  let s' := set_all ctx kvs s in
  rtt (db s') = rtt (db s) ∧ fault (db s') = fault (db s) ∧
  ∃ rows', data (db s') = Some rows' ∧ rows' !! key = rows !! key.
Proof.
  intros Hall. revert s rows.
  induction Hall as [| [k v] kvs Hk _ IH]; intros s rows Hrows; simpl.
  - eauto.
  - destruct (sqlKV_Set_frame ctx k v s) as (Hr & Hf & Hd).
    destruct (Hd rows Hrows) as [Hsame | Hins].
    + destruct (IH _ rows Hsame) as (Hr' & Hf' & rows' & ? & ?).
      split; [congruence |]. split; [congruence |]. eauto.
    + destruct (IH _ _ Hins) as (Hr' & Hf' & rows' & ? & Hl).
      split; [congruence |]. split; [congruence |].
      exists rows'. split; [done |].
      rewrite Hl. by apply lookup_insert_ne.
Qed.

Lemma sqlKV_Get_served (ctx : Context) (key : string) (s : sqlKV)
    (rows : gmap string string) :
  in_time ctx (db s) → fault (db s) = None → data (db s) = Some rows →
  (sqlKV_Get ctx key s).1 = (default "" (rows !! key), None).
Proof.
  intros Ht Hf Hd. unfold sqlKV_Get, query_scan.
  rewrite roundtrip_served by done. rewrite Hd. simpl.
  by destruct (rows !! key).
Qed.

Lemma redisKV_Set_served (ctx : Context) (key value : string) (r r' : redisKV) :
  redisKV_Set ctx key value r = (None, r') →
  client r' = at_time (clock (client r) + rtt (client r))
                      (with_data (<[key := value]> (data (client r))) (client r)) ∧
  fault (client r) = None.
Proof.
  unfold redisKV_Set, redis_Set, roundtrip.
  destruct (Done ctx _); [done |].
  destruct (fault (client r)) eqn:Hf; [done |].
  by intros [= <-].
Qed.

Lemma redisKV_Set_frame (ctx : Context) (key value : string) (r : redisKV) :
  let r' := (redisKV_Set ctx key value r).2 in
  rtt (client r') = rtt (client r) ∧ fault (client r') = fault (client r) ∧
  (data (client r') = data (client r) ∨
   data (client r') = <[key := value]> (data (client r))).
Proof.
  unfold redisKV_Set, redis_Set.
  pose proof (roundtrip_frame ctx (client r) Some
    (λ m, (None, <[key := value]> m))) as Hfr.
  destruct (roundtrip _ _ _ _) as [e h]. simpl in *.
  destruct Hfr as (_ & Hr & Hf & _ & Hd). auto.
Qed.

Lemma redisKV_set_all_others (ctx : Context) (key : string)
    (kvs : list (string * string)) (r : redisKV) :
  Forall (λ kv, kv.1 ≠ key) kvs →
  let r' := set_all ctx kvs r in
  rtt (client r') = rtt (client r) ∧ fault (client r') = fault (client r) ∧
  data (client r') !! key = data (client r) !! key.
Proof.
  intros Hall. revert r.
  induction Hall as [| [k v] kvs Hk _ IH]; intros r; simpl.
  - done.
  - destruct (redisKV_Set_frame ctx k v r) as (Hr & Hf & Hd).
    destruct (IH (redisKV_Set ctx k v r).2) as (Hr' & Hf' & Hl).
    split; [congruence |]. split; [congruence |].
    rewrite Hl. destruct Hd as [-> | ->]; [done |].
    by apply lookup_insert_ne.
Qed.

Lemma redisKV_Get_served (ctx : Context) (key : string) (r : redisKV) :
  in_time ctx (client r) → fault (client r) = None →
  (redisKV_Get ctx key r).1 =
    match data (client r) !! key with
    | Some v => (v, None)
    | None => ("", Some (Sentinel RedisNil))
    end.
Proof.
  intros Ht Hf. unfold redisKV_Get, redis_Get.
  rewrite roundtrip_served by done. simpl.
  by destruct (data (client r) !! key).
Qed.

(** After a [Setup] that did not fail, no key has been set. *)
Lemma sqlKV_Setup_empties (ctx : Context) (s s' : sqlKV) (key : string) :
  sqlKV_Setup ctx s = (None, s') → sql_absent key s' ∧ fault (db s') = None.
Proof.
  unfold sqlKV_Setup, exec_recreate, roundtrip, sql_absent.
  destruct (Done ctx _); [done |].
  destruct (fault (db s)) eqn:Hf; [done |].
  intros [= <-]. simpl. split; [| done].
  exists ∅. split; [done | apply lookup_empty].
Qed.

(** C2.  [Get] of a key that was never set, on a server in order and
    before the deadline: [sqlKV.Get] turns [sql.ErrNoRows] into no error
    and returns the empty string; [redisKV.Get] hands on what the client
    returns, the empty string with the error [redis.Nil]. *)
Theorem Get_of_key_never_set (ctx : Context) (key : string) (s : sqlKV) (r : redisKV) :
  in_time ctx (db s) → fault (db s) = None → sql_absent key s →
  in_time ctx (client r) → fault (client r) = None →
  data (client r) !! key = None →
  (sqlKV_Get ctx key s).1 = ("", None) ∧
  (redisKV_Get ctx key r).1 = ("", Some (Sentinel RedisNil)).
Proof.
  intros Hts Hfs (rows & Hrows & Hnone) Htr Hfr Hr. split.
  - rewrite (sqlKV_Get_served ctx key s rows) by done. by rewrite Hnone.
  - rewrite redisKV_Get_served by done. by rewrite Hr.
Qed.

Lemma Get_of_key_never_set_witness :
  (sqlKV_Get Background "key_0" (pg_at 0 (Some ∅))).1 = ("", None) ∧
  (redisKV_Get Background "key_0" (redis_at 0 ∅)).1
    = ("", Some (Sentinel RedisNil)).
Proof.
  apply (Get_of_key_never_set Background "key_0" (pg_at 0 (Some ∅)) (redis_at 0 ∅));
    try reflexivity.
  exists ∅. split; reflexivity.
Defined.

(** C5.  On either adapter: after a [Set] of [(k, v)] that returned no
    error, and after any further calls of [Set] on other keys, a [Get] of
    [k] that completes in time returns [v] and no error; a second [Set]
    of the same pair changes nothing; of two successive calls of [Set]
    on [k] the later value is the one [Get] returns. *)
Theorem Set_then_Get (ctx ctx' : Context) (k v v1 v2 : string)
    (others : list (string * string)) :
  Forall (λ kv, kv.1 ≠ k) others →
  (∀ s s1 : sqlKV,
     sqlKV_Set ctx k v s = (None, s1) →
     in_time ctx' (db (set_all ctx others s1)) →
     (sqlKV_Get ctx' k (set_all ctx others s1)).1 = (v, None)) ∧
  (∀ s s1 s2 : sqlKV,
     sqlKV_Set ctx k v s = (None, s1) → sqlKV_Set ctx k v s1 = (None, s2) →
     data (db s2) = data (db s1) ∧
     (in_time ctx' (db s2) → (sqlKV_Get ctx' k s2).1 = (v, None))) ∧
  (∀ s s1 s2 : sqlKV,
     sqlKV_Set ctx k v1 s = (None, s1) → sqlKV_Set ctx k v2 s1 = (None, s2) →
     in_time ctx' (db s2) → (sqlKV_Get ctx' k s2).1 = (v2, None)) ∧
  (∀ r r1 : redisKV,
     redisKV_Set ctx k v r = (None, r1) →
     in_time ctx' (client (set_all ctx others r1)) →
     (redisKV_Get ctx' k (set_all ctx others r1)).1 = (v, None)) ∧
  (∀ r r1 r2 : redisKV,
     redisKV_Set ctx k v r = (None, r1) → redisKV_Set ctx k v r1 = (None, r2) →
     data (client r2) = data (client r1) ∧
     (in_time ctx' (client r2) → (redisKV_Get ctx' k r2).1 = (v, None))) ∧
  (∀ r r1 r2 : redisKV,
     redisKV_Set ctx k v1 r = (None, r1) → redisKV_Set ctx k v2 r1 = (None, r2) →
     in_time ctx' (client r2) → (redisKV_Get ctx' k r2).1 = (v2, None)).
Proof.
  intros Hothers. split_and!.
  - intros s s1 Hset Ht.
    destruct (sqlKV_Set_served _ _ _ _ _ Hset) as (rows & Hd & Hs1 & Hf).
    destruct (sqlKV_set_all_others ctx k others s1 (<[k := v]> rows) Hothers)
      as (_ & Hf' & rows' & Hd' & Hl); [by rewrite Hs1 |].
    rewrite (sqlKV_Get_served ctx' k _ rows'); [| done | | done].
    + by rewrite Hl, lookup_insert_eq.
    + rewrite Hf', Hs1. done.
  - intros s s1 s2 Hset1 Hset2.
    destruct (sqlKV_Set_served _ _ _ _ _ Hset1) as (rows & Hd & Hs1 & Hf).
    destruct (sqlKV_Set_served _ _ _ _ _ Hset2) as (rows1 & Hd1 & Hs2 & Hf1).
    split.
    + rewrite Hs2. simpl. rewrite Hd1. rewrite Hs1 in Hd1. simpl in Hd1.
      injection Hd1 as <-. by rewrite insert_insert_eq.
    + intros Ht.
      rewrite (sqlKV_Get_served ctx' k _ (<[k := v]> rows1)); [| done | |].
      * by rewrite lookup_insert_eq.
      * by rewrite Hs2.
      * by rewrite Hs2.
  - intros s s1 s2 _ Hset Ht.
    destruct (sqlKV_Set_served _ _ _ _ _ Hset) as (rows1 & Hd1 & Hs2 & Hf1).
    rewrite (sqlKV_Get_served ctx' k _ (<[k := v2]> rows1)); [| done | |].
    + by rewrite lookup_insert_eq.
    + by rewrite Hs2.
    + by rewrite Hs2.
  - intros r r1 Hset Ht.
    destruct (redisKV_Set_served _ _ _ _ _ Hset) as (Hr1 & Hf).
    destruct (redisKV_set_all_others ctx k others r1 Hothers) as (_ & Hf' & Hl).
    rewrite redisKV_Get_served; [| done |].
    + rewrite Hl, Hr1. simpl. by rewrite lookup_insert_eq.
    + by rewrite Hf', Hr1.
  - intros r r1 r2 Hset1 Hset2.
    destruct (redisKV_Set_served _ _ _ _ _ Hset1) as (Hr1 & Hf).
    destruct (redisKV_Set_served _ _ _ _ _ Hset2) as (Hr2 & Hf1).
    split.
    + rewrite Hr2, Hr1. simpl. by rewrite insert_insert_eq.
    + intros Ht. rewrite redisKV_Get_served; [| done |].
      * rewrite Hr2. simpl. by rewrite lookup_insert_eq.
      * by rewrite Hr2.
  - intros r r1 r2 _ Hset Ht.
    destruct (redisKV_Set_served _ _ _ _ _ Hset) as (Hr2 & Hf1).
    rewrite redisKV_Get_served; [| done |].
    + rewrite Hr2. simpl. by rewrite lookup_insert_eq.
    + by rewrite Hr2.
Qed.

Lemma Set_then_Get_witness :
  let ctx := until 100 in
  let s0 := pg_at 0 (Some ∅) in
  let r0 := redis_at 0 ∅ in
  let others := [("key_1", "value_1"); ("key_2", "value_2")] in
  let s1 := (sqlKV_Set ctx "key_0" "value_0" s0).2 in
  let s2 := (sqlKV_Set ctx "key_0" "other" s1).2 in
  let s3 := (sqlKV_Set ctx "key_0" "other" s2).2 in
  let r1 := (redisKV_Set ctx "key_0" "value_0" r0).2 in
  let r2 := (redisKV_Set ctx "key_0" "other" r1).2 in
  let r3 := (redisKV_Set ctx "key_0" "other" r2).2 in
  (sqlKV_Get Background "key_0" (set_all ctx others s1)).1 = ("value_0", None) ∧
  (sqlKV_Get Background "key_0" s2).1 = ("other", None) ∧
  (sqlKV_Get Background "key_0" s3).1 = ("other", None) ∧
  (redisKV_Get Background "key_0" (set_all ctx others r1)).1 = ("value_0", None) ∧
  (redisKV_Get Background "key_0" r2).1 = ("other", None) ∧
  (redisKV_Get Background "key_0" r3).1 = ("other", None).
Proof.
  intros ctx s0 r0 others s1 s2 s3 r1 r2 r3.
  assert (Forall (λ kv : string * string, kv.1 ≠ "key_0") others) as Hothers
    by (repeat constructor; done).
  destruct (Set_then_Get ctx Background "key_0" "value_0" "value_0" "other"
              others Hothers) as (Hs & _ & Hs2 & Hr & _ & Hr2).
  destruct (Set_then_Get ctx Background "key_0" "other" "value_0" "other"
              others Hothers) as (_ & Hs3 & _ & _ & Hr3 & _).
  split_and!.
  - apply (Hs s0 s1); reflexivity.
  - apply (Hs2 s0 s1 s2); reflexivity.
  - apply (Hs3 s1 s2 s3); reflexivity.
  - apply (Hr r0 r1); reflexivity.
  - apply (Hr2 r0 r1 r2); reflexivity.
  - apply (Hr3 r1 r2 r3); reflexivity.
Defined.

(** ** The workers *)

Lemma passes_app (t1 t2 : list event) : passes t1 → passes t2 → passes (t1 ++ t2).
Proof.
  induction 1 as [| c r t Hc Hr _ IH]; intros H2; simpl.
  - done.
  - constructor; auto.
Qed.

(** No pass that went on saw the context done. *)
Lemma passes_not_done (t : list event) : passes t → EvSelect true ∉ t.
Proof.
  induction 1 as [| c r t Hc Hr _ IH].
  - apply not_elem_of_nil.
  - rewrite !not_elem_of_cons. split_and!; [done | | | done].
    + intros <-. done.
    + intros <-. done.
Qed.

(** Every backend call comes directly after a check that found the
    context not done. *)
Lemma passes_call_checked (t pre post : list event) (c : event) :
  passes t → t = pre ++ c :: post → is_call c = true →
  ∃ pre', pre = pre' ++ [EvSelect false].
Proof.
  intros Hp. revert pre.
  induction Hp as [| c' r t Hc Hr _ IH]; intros pre Heq Hcall.
  - by destruct pre.
  - destruct pre as [| x [| y [| z pre]]]; simpl in Heq.
    + injection Heq as <- _. done.
    + injection Heq as <- _ _. by exists [].
    + injection Heq as _ _ <- _. by destruct r.
    + injection Heq as <- <- <- Heq.
      destruct (IH pre Heq Hcall) as (pre' & ->).
      by exists (EvSelect false :: c' :: r :: pre').
Qed.

Section WorkerFacts.
Context {B : Type} `{!KV B} `{!Timed B}.
Implicit Types (w : World B) (ctx : Context).

(** What a call on the [Stats] does to the world. *)
Lemma do_Err_stats (e : option error) w :
  stats (do_Err e w) = (Stats_Err (stats w) e).1 ∧
  stdout (do_Err e w) = stdout w ++ (Stats_Err (stats w) e).2 ∧
  backend (do_Err e w) = backend w ∧
  trace (do_Err e w) = trace w ++ [EvErr e].
Proof. unfold do_Err. by destruct (Stats_Err (stats w) e). Qed.

Lemma runSet_body_shape ctx (key value : string) :
  pass_shape ctx (runSet_body ctx key value).
Proof.
  intros w. unfold runSet_body, select_Done, do_Set.
  destruct (Done ctx (now (backend w))) eqn:Hd; [done |]. simpl.
  destruct (KV_Set ctx key value (backend w)) as [e b].
  destruct e as [e|].
  - eexists _, (EvSet key value (Some e)), (EvErr (Some e)).
    split; [done |]. split; [done |]. split; [done |].
    destruct (do_Err_stats (Some e)
      {| backend := b; stats := stats w; stdout := stdout w;
         trace := (trace w ++ [EvSelect false]) ++ [EvSet key value (Some e)] |})
      as (_ & _ & _ & ->).
    simpl. by rewrite <- !app_assoc.
  - eexists _, (EvSet key value None), EvOK.
    split; [done |]. split; [done |]. split; [done |].
    simpl. by rewrite <- !app_assoc.
Qed.

Lemma runGet_body_shape ctx (key value : string) :
  pass_shape ctx (runGet_body ctx key value).
Proof.
  intros w. unfold runGet_body, select_Done, do_Get.
  destruct (Done ctx (now (backend w))) eqn:Hd; [done |]. simpl.
  destruct (KV_Get ctx key (backend w)) as [[v e] b].
  destruct e as [e|]; [| case_bool_decide].
  - eexists _, (EvGet key v (Some e)), (EvErr (Some e)).
    split; [done |]. split; [done |]. split; [done |].
    destruct (do_Err_stats (Some e)
      {| backend := b; stats := stats w; stdout := stdout w;
         trace := (trace w ++ [EvSelect false]) ++ [EvGet key v (Some e)] |})
      as (_ & _ & _ & ->).
    simpl. by rewrite <- !app_assoc.
  - eexists _, (EvGet key v None), (EvErr (Some (Errorf_unexpected v))).
    split; [done |]. split; [done |]. split; [done |].
    destruct (do_Err_stats (Some (Errorf_unexpected v))
      {| backend := b; stats := stats w; stdout := stdout w;
         trace := (trace w ++ [EvSelect false]) ++ [EvGet key v None] |})
      as (_ & _ & _ & ->).
    simpl. by rewrite <- !app_assoc.
  - eexists _, (EvGet key v None), EvOK.
    split; [done |]. split; [done |]. split; [done |].
    simpl. by rewrite <- !app_assoc.
Qed.

(** A loop of such passes returns only from a check that found the
    context done. *)
Lemma loop_exit ctx (body : World B → flow (World B)) :
  pass_shape ctx body →
  ∀ (fuel : nat) w w',
    loop body fuel w = Some w' →
    ∃ t w_last,
      passes t ∧
      trace w_last = trace w ++ t ∧
      Done ctx (now (backend w_last)) = true ∧
      w' = log (EvSelect true) w_last.
Proof.
  intros Hshape fuel.
  induction fuel as [| fuel IH]; intros w w' Hrun; [done |].
  simpl in Hrun. specialize (Hshape w).
  destruct (Done ctx (now (backend w))) eqn:Hd.
  - rewrite Hshape in Hrun. injection Hrun as <-.
    exists [], w. rewrite app_nil_r. split_and!; [constructor | done..].
  - destruct Hshape as (w1 & c & r & Hbody & Hc & Hr & Htr).
    rewrite Hbody in Hrun.
    destruct (IH _ _ Hrun) as (t & w_last & Hp & Ht & Hdone & ->).
    exists (EvSelect false :: c :: r :: t), w_last.
    split_and!; [by constructor | | done..].
    rewrite Ht, Htr. by rewrite <- app_assoc.
Qed.

(** A pass that goes on leaves the backend as its one call left it. *)
Lemma runSet_body_goes_on ctx (key value : string) w :
  Done ctx (now (backend w)) = false →
  ∃ w', runSet_body ctx key value w = Continue w' ∧
        backend w' = (KV_Set ctx key value (backend w)).2.
Proof.
  intros Hd. unfold runSet_body, select_Done, do_Set. rewrite Hd. simpl.
  destruct (KV_Set ctx key value (backend w)) as [[e|] b]; eexists; split; try done.
  unfold do_Err; simpl. by destruct (Stats_Err _ _).
Qed.

Lemma runGet_body_goes_on ctx (key value : string) w :
  Done ctx (now (backend w)) = false →
  ∃ w', runGet_body ctx key value w = Continue w' ∧
        backend w' = (KV_Get ctx key (backend w)).2.
Proof.
  intros Hd. unfold runGet_body, select_Done, do_Get. rewrite Hd. simpl.
  destruct (KV_Get ctx key (backend w)) as [[v [e|]] b];
    [| case_bool_decide]; eexists; split; try done;
    unfold do_Err; simpl; by destruct (Stats_Err _ _).
Qed.

(** A loop whose passes take time returns once the deadline has passed:
    [good] is kept by every pass that goes on, and such a pass moves the
    clock forward. *)
Lemma loop_returns ctx (body : World B → flow (World B)) (good : B → Prop) (t : Z) :
  deadline ctx = Some t →
  pass_shape ctx body →
  (∀ w w', good (backend w) → body w = Continue w' →
           good (backend w') ∧ now (backend w) < now (backend w')) →
  ∀ (fuel : nat) w,
    good (backend w) → t - now (backend w) ≤ Z.of_nat fuel →
    ∃ w', loop body (S fuel) w = Some w'.
Proof.
  intros Ht Hshape Hgo fuel.
  induction fuel as [| fuel IH]; intros w Hgood Hfuel.
  - pose proof (Hshape w) as Hw. unfold Done in Hw. rewrite Ht in Hw.
    rewrite bool_decide_eq_true_2 in Hw by lia.
    simpl. rewrite Hw. eauto.
  - pose proof (Hshape w) as Hw. change (loop body (S (S fuel)) w) with
      (match body w with
       | Return a' => Some a'
       | Continue a' => loop body (S fuel) a'
       end).
    destruct (Done ctx (now (backend w))) eqn:Hd.
    + rewrite Hw. eauto.
    + destruct Hw as (w1 & _ & _ & Hbody & _). rewrite Hbody.
      destruct (Hgo w w1 Hgood Hbody) as [Hgood1 Hnow].
      apply IH; [done | lia].
Qed.

End WorkerFacts.

(** The counters after a call of [Err]. *)
Lemma Stats_Err_counts (s : Stats) (e : option error) :
  if errors_Is e DeadlineExceeded
  then (Stats_Err s e).1 = s
  else adds_to_err s (Stats_Err s e).1.
Proof. unfold Stats_Err. by destruct (errors_Is e DeadlineExceeded). Qed.

(** C3, as amended.  A pass through either loop that made its backend
    call adds one to at most one counter and never to both: to the
    success counter when the call succeeded (and, in [runGet], returned
    the expected value); to the error counter when it failed with an
    error that does not signal the deadline, or returned another value;
    to neither when it failed with an error that signals the deadline. *)
Theorem attempt_adds_at_most_one {B : Type} `{!KV B} `{!Timed B}
    (ctx : Context) (key value : string) (w w' : World B) :
  (runSet_body ctx key value w = Continue w' →
     ∃ e b, KV_Set ctx key value (backend w) = (e, b) ∧ backend w' = b ∧
       match e with
       | None => adds_to_ok (stats w) (stats w')
       | Some _ =>
           if errors_Is e DeadlineExceeded then stats w' = stats w
           else adds_to_err (stats w) (stats w')
       end) ∧
  (runGet_body ctx key value w = Continue w' →
     ∃ v e b, KV_Get ctx key (backend w) = ((v, e), b) ∧ backend w' = b ∧
       match e with
       | None =>
           if bool_decide (v = value) then adds_to_ok (stats w) (stats w')
           else adds_to_err (stats w) (stats w')
       | Some _ =>
           if errors_Is e DeadlineExceeded then stats w' = stats w
           else adds_to_err (stats w) (stats w')
       end).
Proof.
  split.
  - unfold runSet_body, select_Done, do_Set.
    destruct (Done ctx (now (backend w))); [done |]. simpl.
    destruct (KV_Set ctx key value (backend w)) as [e b].
    intros Hrun. exists e, b. split; [done |].
    destruct e as [e|]; injection Hrun as <-.
    + destruct (do_Err_stats (B := B) (Some e)
        {| backend := b; stats := stats w; stdout := stdout w;
           trace := (trace w ++ [EvSelect false]) ++ [EvSet key value (Some e)] |})
        as (-> & _ & -> & _). simpl. split; [done |].
      apply (Stats_Err_counts (stats w) (Some e)).
    + done.
  - unfold runGet_body, select_Done, do_Get.
    destruct (Done ctx (now (backend w))); [done |]. simpl.
    destruct (KV_Get ctx key (backend w)) as [[v e] b].
    intros Hrun. exists v, e, b. split; [done |].
    destruct e as [e|].
    + injection Hrun as <-.
      destruct (do_Err_stats (B := B) (Some e)
        {| backend := b; stats := stats w; stdout := stdout w;
           trace := (trace w ++ [EvSelect false]) ++ [EvGet key v (Some e)] |})
        as (-> & _ & -> & _). simpl. split; [done |].
      apply (Stats_Err_counts (stats w) (Some e)).
    + repeat case_bool_decide; try done; injection Hrun as <-; done.
Qed.

Lemma attempt_adds_at_most_one_witness :
  let w0 := fresh (pg_at 0 (Some ∅)) {| ok := 2; err := 1 |} in
  let w1 := fresh (pg_at 0 None) {| ok := 2; err := 1 |} in
  let w2 := fresh (pg_at 2 (Some ∅)) {| ok := 2; err := 1 |} in
  let w3 := fresh (pg_at 0 (Some {[ "key_7" := "seven" ]})) {| ok := 2; err := 1 |} in
  ∃ w0' w1' w2' w3',
    runSet_body (until 3) "key_7" "value_7" w0 = Continue w0' ∧
    adds_to_ok (stats w0) (stats w0') ∧
    runSet_body (until 3) "key_7" "value_7" w1 = Continue w1' ∧
    adds_to_err (stats w1) (stats w1') ∧
    runSet_body (until 3) "key_7" "value_7" w2 = Continue w2' ∧
    stats w2' = stats w2 ∧
    runGet_body (until 3) "key_7" "value_7" w3 = Continue w3' ∧
    adds_to_err (stats w3) (stats w3').
Proof.
  intros w0 w1 w2 w3.
  pose (run := λ w : World sqlKV,
          match runSet_body (until 3) "key_7" "value_7" w with
          | Return x | Continue x => x
          end).
  pose (get := match runGet_body (until 3) "key_7" "value_7" w3 with
               | Return x | Continue x => x
               end).
  assert (runSet_body (until 3) "key_7" "value_7" w0 = Continue (run w0)) as H0
    by reflexivity.
  assert (runSet_body (until 3) "key_7" "value_7" w1 = Continue (run w1)) as H1
    by reflexivity.
  assert (runSet_body (until 3) "key_7" "value_7" w2 = Continue (run w2)) as H2
    by reflexivity.
  assert (runGet_body (until 3) "key_7" "value_7" w3 = Continue get) as H3
    by reflexivity.
  exists (run w0), (run w1), (run w2), get.
  split_and!; [done | | done | | done | | done | ].
  - destruct (proj1 (attempt_adds_at_most_one _ _ _ _ _) H0)
      as (e & b & Hcall & _ & Hcount).
    vm_compute in Hcall. by injection Hcall as <- _.
  - destruct (proj1 (attempt_adds_at_most_one _ _ _ _ _) H1)
      as (e & b & Hcall & _ & Hcount).
    vm_compute in Hcall. by injection Hcall as <- _.
  - destruct (proj1 (attempt_adds_at_most_one _ _ _ _ _) H2)
      as (e & b & Hcall & _ & Hcount).
    vm_compute in Hcall. by injection Hcall as <- _.
  - destruct (proj2 (attempt_adds_at_most_one _ _ _ _ _) H3)
      as (v & e & b & Hcall & _ & Hcount).
    vm_compute in Hcall. by injection Hcall as <- <- _.
Defined.

(** C3, as stated, fails when the backend call runs into the deadline:
    [Set] returns [context.DeadlineExceeded], [Err] discards it, and the
    pass goes on with both counters as they were. *)
Lemma attempt_at_deadline_adds_nothing :
  let w0 := fresh (pg_at 2 (Some ∅)) {| ok := 2; err := 0 |} in
  ∃ w',
    runSet_body (until 3) (key_of 7) (value_of 7) w0 = Continue w' ∧
    trace w' = [EvSelect false;
                EvSet "key_7" "value_7" (Some (Sentinel DeadlineExceeded));
                EvErr (Some (Sentinel DeadlineExceeded))] ∧
    stats w' = stats w0 ∧
    ¬ (adds_to_ok (stats w0) (stats w') ∨ adds_to_err (stats w0) (stats w')).
Proof.
  intros w0. eexists. split; [vm_compute; reflexivity |].
  split; [reflexivity |]. split; [reflexivity |].
  intros [[Hok _] | [_ Herr]]; vm_compute in *; done.
Qed.

(** C4.  A pass of [runGet] whose [Get] succeeds with a value other
    than ["value_<i>"] calls [Err] with the error
    ["unexpected value: <v>"]: that error does not signal the deadline,
    so its line is written, the error counter goes up by one, the success
    counter stays, and the loop goes on. *)
Theorem mismatch_is_counted {B : Type} `{!KV B} `{!Timed B}
    (ctx : Context) (i : Z) (w : World B) (v : string) (b : B) :
  Done ctx (now (backend w)) = false →
  KV_Get ctx (key_of i) (backend w) = ((v, None), b) →
  v ≠ value_of i →
  ∃ w',
    runGet_body ctx (key_of i) (value_of i) w = Continue w' ∧
    errors_Is (Some (Errorf_unexpected v)) DeadlineExceeded = false ∧
    stats w' = {| ok := ok (stats w); err := wrap64 (err (stats w) + 1) |} ∧
    stdout w' = stdout w ++ ["unexpected value: " +:+ v +:+ nl] ∧
    trace w' = trace w ++ [EvSelect false; EvGet (key_of i) v None;
                           EvErr (Some (Errorf_unexpected v))] ∧
    backend w' = b.
Proof.
  intros Hd Hget Hne. eexists. split.
  - unfold runGet_body, select_Done, do_Get. rewrite Hd. simpl.
    rewrite Hget. by rewrite bool_decide_eq_true_2.
  - split; [done |]. unfold do_Err; simpl. by rewrite <- !app_assoc.
Qed.

Lemma mismatch_is_counted_witness :
  let w := fresh (pg_at 0 (Some {[ "key_5" := "value_6" ]})) {| ok := 9; err := 0 |} in
  ∃ w',
    runGet_body (until 3) (key_of 5) (value_of 5) w = Continue w' ∧
    stats w' = {| ok := 9; err := 1 |} ∧
    stdout w' = ["unexpected value: value_6" +:+ nl].
Proof.
  intros w.
  destruct (mismatch_is_counted (until 3) 5 w "value_6"
              (sqlKV_Get (until 3) (key_of 5) (backend w)).2)
    as (w' & Hrun & _ & Hstats & Hout & _).
  - reflexivity.
  - reflexivity.
  - vm_compute. discriminate.
  - exists w'. by rewrite Hrun, Hstats, Hout.
Defined.

(** C7.  In both loops a pass begins with the check of [ctx.Done()].
    When the check finds the context done the worker returns at once:
    the world is as before but for the record of the check.  Otherwise
    the pass makes its one backend call and goes on.  A worker that has
    returned did so from such a check: its trace is that of passes that
    went on, each a check that found the context not done followed by a
    call, and ends with the check that found it done. *)
Theorem worker_exits_only_at_check {B : Type} `{!KV B} `{!Timed B}
    (ctx : Context) (i : Z) :
  pass_shape ctx (runSet_body ctx (key_of i) (value_of i)) ∧
  pass_shape ctx (runGet_body ctx (key_of i) (value_of i)) ∧
  (∀ (fuel : nat) (w : World B),
     Done ctx (now (backend w)) = true →
     runSet ctx i (S fuel) w = Some (log (EvSelect true) w) ∧
     runGet ctx i (S fuel) w = Some (log (EvSelect true) w)) ∧
  (∀ (fuel : nat) (w w' : World B),
     runSet ctx i fuel w = Some w' ∨ runGet ctx i fuel w = Some w' →
     ∃ t w_last,
       passes t ∧
       trace w_last = trace w ++ t ∧
       Done ctx (now (backend w_last)) = true ∧
       w' = log (EvSelect true) w_last).
Proof.
  split; [apply runSet_body_shape |]. split; [apply runGet_body_shape |].
  split.
  - intros fuel w Hd. unfold runSet, runGet. simpl.
    pose proof (runSet_body_shape ctx (key_of i) (value_of i) w) as Hs.
    pose proof (runGet_body_shape ctx (key_of i) (value_of i) w) as Hg.
    rewrite Hd in Hs, Hg. by rewrite Hs, Hg.
  - intros fuel w w' [Hrun | Hrun].
    + eapply loop_exit; [apply runSet_body_shape | exact Hrun].
    + eapply loop_exit; [apply runGet_body_shape | exact Hrun].
Qed.

Lemma worker_exits_only_at_check_witness :
  let w := fresh (pg_at 0 (Some ∅)) Stats_zero in
  ∃ w' t,
    runSet (until 3) 7 10 w = Some w' ∧
    passes t ∧
    trace w' = t ++ [EvSelect true] ∧
    length t = 9%nat.
Proof.
  intros w.
  pose (w' := default w (runSet (until 3) 7 10 w)).
  assert (runSet (until 3) 7 10 w = Some w') as Hrun by (vm_compute; reflexivity).
  destruct (worker_exits_only_at_check (B := sqlKV) (until 3) 7)
    as (_ & _ & _ & Hloop).
  destruct (Hloop 10%nat w w' (or_introl Hrun)) as (t & w_last & Hp & Ht & _ & Hw').
  exists w', t. split; [done |]. split; [done |].
  assert (trace w' = t ++ [EvSelect true]) as Htr by (by rewrite Hw'; simpl; rewrite Ht).
  split; [done |].
  assert (length (trace w') = 10%nat) as Hlen by (vm_compute; reflexivity).
  rewrite Htr, length_app in Hlen. simpl in Hlen. lia.
Defined.

(** Every call on an adapter takes the time of one round trip. *)
Lemma sqlKV_calls_take_time (ctx : Context) (key value : string) (s : sqlKV) :
  let s1 := (sqlKV_Set ctx key value s).2 in
  let s2 := (sqlKV_Get ctx key s).2 in
  (rtt (db s1) = rtt (db s) ∧ clock (db s1) = clock (db s) + rtt (db s)) ∧
  (rtt (db s2) = rtt (db s) ∧ clock (db s2) = clock (db s) + rtt (db s)).
Proof.
  split.
  - unfold sqlKV_Set, exec_upsert.
    match goal with |- context [roundtrip ?c ?b ?f ?op] =>
      pose proof (roundtrip_frame c b f op) as Hfr;
      destruct (roundtrip c b f op) as [e h] end.
    simpl in *. tauto.
  - unfold sqlKV_Get, query_scan.
    match goal with |- context [roundtrip ?c ?b ?f ?op] =>
      pose proof (roundtrip_frame c b f op) as Hfr;
      destruct (roundtrip c b f op) as [[v e] h] end.
    simpl in *. tauto.
Qed.

Lemma redisKV_calls_take_time (ctx : Context) (key value : string) (r : redisKV) :
  let r1 := (redisKV_Set ctx key value r).2 in
  let r2 := (redisKV_Get ctx key r).2 in
  (rtt (client r1) = rtt (client r) ∧
   clock (client r1) = clock (client r) + rtt (client r)) ∧
  (rtt (client r2) = rtt (client r) ∧
   clock (client r2) = clock (client r) + rtt (client r)).
Proof.
  split.
  - unfold redisKV_Set, redis_Set.
    match goal with |- context [roundtrip ?c ?b ?f ?op] =>
      pose proof (roundtrip_frame c b f op) as Hfr;
      destruct (roundtrip c b f op) as [e h] end.
    simpl in *. tauto.
  - unfold redisKV_Get, redis_Get.
    match goal with |- context [roundtrip ?c ?b ?f ?op] =>
      pose proof (roundtrip_frame c b f op) as Hfr;
      destruct (roundtrip c b f op) as [res h] end.
    simpl in *. tauto.
Qed.

(** Against either adapter, with calls that take time, both workers
    return once the deadline of their context has passed. *)
Lemma sqlKV_workers_return (ctx : Context) (t i : Z) (w : World sqlKV) :
  deadline ctx = Some t → 0 < rtt (db (backend w)) →
  let fuel := S (Z.to_nat (t - clock (db (backend w)))) in
  (∃ w', runSet ctx i fuel w = Some w') ∧ (∃ w', runGet ctx i fuel w = Some w').
Proof.
  intros Ht Hrtt fuel. split.
  - apply (loop_returns ctx _ (λ s, 0 < rtt (db s)) t Ht
             (runSet_body_shape ctx _ _)); [| done | unfold now, sqlKV_Timed; lia].
    intros w0 w1 Hgood Hbody.
    destruct (Done ctx (now (backend w0))) eqn:Hd.
    + pose proof (runSet_body_shape ctx (key_of i) (value_of i) w0) as Hs.
      rewrite Hd in Hs. congruence.
    + destruct (runSet_body_goes_on ctx (key_of i) (value_of i) w0 Hd)
        as (w1' & Hbody' & Hb).
      assert (w1' = w1) as -> by congruence. rewrite Hb.
      destruct (sqlKV_calls_take_time ctx (key_of i) (value_of i) (backend w0))
        as [[Hr Hc] _].
      change (KV_Set ctx (key_of i) (value_of i) (backend w0))
        with (sqlKV_Set ctx (key_of i) (value_of i) (backend w0)).
      unfold now, sqlKV_Timed. rewrite Hr, Hc. lia.
  - apply (loop_returns ctx _ (λ s, 0 < rtt (db s)) t Ht
             (runGet_body_shape ctx _ _)); [| done | unfold now, sqlKV_Timed; lia].
    intros w0 w1 Hgood Hbody.
    destruct (Done ctx (now (backend w0))) eqn:Hd.
    + pose proof (runGet_body_shape ctx (key_of i) (value_of i) w0) as Hs.
      rewrite Hd in Hs. congruence.
    + destruct (runGet_body_goes_on ctx (key_of i) (value_of i) w0 Hd)
        as (w1' & Hbody' & Hb).
      assert (w1' = w1) as -> by congruence. rewrite Hb.
      destruct (sqlKV_calls_take_time ctx (key_of i) (value_of i) (backend w0))
        as [_ [Hr Hc]].
      change (KV_Get ctx (key_of i) (backend w0))
        with (sqlKV_Get ctx (key_of i) (backend w0)).
      unfold now, sqlKV_Timed. rewrite Hr, Hc. lia.
Qed.

Lemma redisKV_workers_return (ctx : Context) (t i : Z) (w : World redisKV) :
  deadline ctx = Some t → 0 < rtt (client (backend w)) →
  let fuel := S (Z.to_nat (t - clock (client (backend w)))) in
  (∃ w', runSet ctx i fuel w = Some w') ∧ (∃ w', runGet ctx i fuel w = Some w').
Proof.
  intros Ht Hrtt fuel. split.
  - apply (loop_returns ctx _ (λ r, 0 < rtt (client r)) t Ht
             (runSet_body_shape ctx _ _)); [| done | unfold now, redisKV_Timed; lia].
    intros w0 w1 Hgood Hbody.
    destruct (Done ctx (now (backend w0))) eqn:Hd.
    + pose proof (runSet_body_shape ctx (key_of i) (value_of i) w0) as Hs.
      rewrite Hd in Hs. congruence.
    + destruct (runSet_body_goes_on ctx (key_of i) (value_of i) w0 Hd)
        as (w1' & Hbody' & Hb).
      assert (w1' = w1) as -> by congruence. rewrite Hb.
      destruct (redisKV_calls_take_time ctx (key_of i) (value_of i) (backend w0))
        as [[Hr Hc] _].
      change (KV_Set ctx (key_of i) (value_of i) (backend w0))
        with (redisKV_Set ctx (key_of i) (value_of i) (backend w0)).
      unfold now, redisKV_Timed. rewrite Hr, Hc. lia.
  - apply (loop_returns ctx _ (λ r, 0 < rtt (client r)) t Ht
             (runGet_body_shape ctx _ _)); [| done | unfold now, redisKV_Timed; lia].
    intros w0 w1 Hgood Hbody.
    destruct (Done ctx (now (backend w0))) eqn:Hd.
    + pose proof (runGet_body_shape ctx (key_of i) (value_of i) w0) as Hs.
      rewrite Hd in Hs. congruence.
    + destruct (runGet_body_goes_on ctx (key_of i) (value_of i) w0 Hd)
        as (w1' & Hbody' & Hb).
      assert (w1' = w1) as -> by congruence. rewrite Hb.
      destruct (redisKV_calls_take_time ctx (key_of i) (value_of i) (backend w0))
        as [_ [Hr Hc]].
      change (KV_Get ctx (key_of i) (backend w0))
        with (redisKV_Get ctx (key_of i) (backend w0)).
      unfold now, redisKV_Timed. rewrite Hr, Hc. lia.
Qed.

(** ** Interleavings of the calls on one [Stats] *)

(** The actions of a call, performed without interruption, are the
    method. *)
Lemma perform_call (c : call) (s : Stats) (out : list string) :
  foldl (λ acc a, perform a acc) (s, out) (actions_of c) =
  match c with
  | CallOK => (Stats_OK s, out)
  | CallErr e => ((Stats_Err s e).1, out ++ (Stats_Err s e).2)
  end.
Proof.
  destruct c as [| e]; simpl; [done |].
  unfold Stats_Err. destruct (errors_Is e DeadlineExceeded); simpl; [| done].
  by rewrite app_nil_r.
Qed.

Lemma pending_pick (f : action → bool) (before after : pool) (a : action)
    (rest : list action) :
  pending f (before ++ (a :: rest) :: after) =
  pending f (before ++ rest :: after) + (if f a then 1 else 0).
Proof.
  unfold pending. rewrite !concat_app, !concat_cons, !filter_app.
  simpl. rewrite !length_app.
  destruct (f a) eqn:Hfa.
  - rewrite filter_cons_True by done. simpl length. lia.
  - rewrite filter_cons_False by (by rewrite Hfa). lia.
Qed.

Lemma pending_finished (f : action → bool) (p : pool) :
  finished p → pending f p = 0.
Proof.
  unfold finished, pending. induction 1 as [| l p -> _ IH]; [done |].
  by rewrite concat_cons.
Qed.

Lemma pending_pool_of (f : action → bool) (g : call → bool) (calls : list (list call)) :
  (∀ c, Z.of_nat (length (filter (λ a, f a = true) (actions_of c)))
        = if g c then 1 else 0) →
  pending f (pool_of calls) = tally g calls.
Proof.
  intros Hfg. unfold pending, tally, pool_of.
  assert (∀ cs : list call,
    Z.of_nat (length (filter (λ a, f a = true) (cs ≫= actions_of))) =
    Z.of_nat (length (filter (λ c, g c = true) cs))) as Hone.
  { induction cs as [| c cs IH]; [done |].
    rewrite bind_cons, filter_app, length_app, Nat2Z.inj_add, IH, Hfg.
    destruct (g c) eqn:Hg.
    - rewrite filter_cons_True by done. simpl length. lia.
    - rewrite filter_cons_False by (by rewrite Hg). lia. }
  induction calls as [| cs calls IH]; [done |].
  rewrite fmap_cons, !concat_cons, !filter_app, !length_app, !Nat2Z.inj_add.
  rewrite Hone. f_equal. exact IH.
Qed.

Lemma step_balanced (k m : Z) (x y : pool * shared) :
  balanced k m x → step x y → balanced k m y.
Proof.
  intros (Hok & Herr & Hbk & Hbm) Hstep.
  destruct Hstep as [before after a rest [s out]]. simpl in *.
  rewrite (pending_pick is_add_ok) in Hbk.
  rewrite (pending_pick is_add_err) in Hbm.
  unfold balanced.
  destruct a; simpl in *.
  - rewrite !Z.add_0_r in *. done.
  - rewrite Z.add_0_r in Hbm.
    split; [apply wrap64_range |]. split; [done |]. split; [| done].
    unfold wrap64. rewrite Zplus_mod_idemp_l. rewrite <- Hbk. f_equal. lia.
  - rewrite Z.add_0_r in Hbk.
    split; [done |]. split; [apply wrap64_range |]. split; [done |].
    unfold wrap64. rewrite Zplus_mod_idemp_l. rewrite <- Hbm. f_equal. lia.
Qed.

Lemma runs_balanced (k m : Z) (x y : pool * shared) :
  runs_to x y → balanced k m x → balanced k m y.
Proof.
  intros Hruns. induction Hruns as [x | x y z Hstep _ IH]; [done |].
  intros Hx. apply IH. by eapply step_balanced.
Qed.

(** The goroutines one after the other make an interleaving that lets
    every goroutine finish. *)
Lemma in_turn_runs (p : pool) (σ : shared) :
  runs_to (p, σ) (map (λ _, []) p, in_turn p σ).
Proof.
  assert (∀ (done : pool) (l : list action) (after : pool) (τ : shared),
    runs_to (done ++ l :: after, τ)
            (done ++ [] :: after, foldl (λ acc a, perform a acc) τ l)) as Hone.
  { intros done l. induction l as [| a l IH]; intros after τ; simpl.
    - apply rtc_refl.
    - eapply rtc_l; [apply step_pick | apply IH]. }
  assert (∀ (todo done : pool) (τ : shared),
    runs_to (done ++ todo, τ)
            (done ++ map (λ _, []) todo, in_turn todo τ)) as Hall.
  { induction todo as [| l todo IH]; intros done τ.
    - apply rtc_refl.
    - eapply rtc_trans; [apply Hone |].
      unfold in_turn. rewrite concat_cons, foldl_app.
      simpl map. rewrite !(cons_middle _ done), !app_assoc. apply IH. }
  apply (Hall p [] σ).
Qed.

(** C6.  Goroutines that between them make [k] calls of [OK] and
    [N - k] calls of [Err] with errors that are counted, however their
    atomic additions and their writes interleave: once all have finished
    the success counter reads [k], the error counter [N - k] and their
    sum [N], as [uint64] values; that is, exactly those numbers when [N]
    is less than [2 ^ 64]. *)
Theorem no_increment_is_lost (calls : list (list call)) (N k : Z)
    (p' : pool) (s' : Stats) (out' : list string) :
  k = tally counted_ok calls →
  N - k = tally counted_err calls →
  runs_to (pool_of calls, (Stats_zero, [])) (p', (s', out')) →
  finished p' →
  ok s' = k mod 2 ^ 64 ∧ err s' = (N - k) mod 2 ^ 64 ∧
  total s' = N mod 2 ^ 64 ∧
  (N < 2 ^ 64 → ok s' = k ∧ err s' = N - k ∧ ok s' + err s' = N).
Proof.
  intros Hk Hm Hruns Hfin.
  assert (0 ≤ k) by (subst k; unfold tally; lia).
  assert (0 ≤ N - k) by (rewrite Hm; unfold tally; lia).
  assert (balanced k (N - k) (p', (s', out'))) as (Hok & Herr & Hbk & Hbm).
  { eapply runs_balanced; [exact Hruns |].
    unfold balanced. simpl.
    split; [done |]. split; [done |]. split.
    - rewrite (pending_pool_of is_add_ok counted_ok); [by rewrite Hk |].
      intros [| e]; simpl; [done |].
      by destruct (errors_Is e DeadlineExceeded).
    - rewrite (pending_pool_of is_add_err counted_err); [by rewrite Hm |].
      intros [| e]; simpl; [done |].
      by destruct (errors_Is e DeadlineExceeded). }
  simpl in *. rewrite !pending_finished, !Z.add_0_r in * by done.
  rewrite (Z.mod_small (ok s')) in Hbk by done.
  rewrite (Z.mod_small (err s')) in Hbm by done.
  split; [done |]. split; [done |]. split.
  - unfold total, wrap64. rewrite Hbk, Hbm, <- Z.add_mod by lia. f_equal. lia.
  - intros HN. rewrite Z.mod_small in Hbk by lia.
    rewrite Z.mod_small in Hbm by lia. lia.
Qed.

Lemma no_increment_is_lost_witness :
  let calls :=
    [[CallOK; CallErr (Some refused)];
     [CallErr (Some (Sentinel DeadlineExceeded)); CallOK];
     [CallOK]] in
  let σ := in_turn (pool_of calls) (Stats_zero, []) in
  ok σ.1 = 3 ∧ err σ.1 = 4 - 3 ∧ ok σ.1 + err σ.1 = 4.
Proof.
  intros calls σ.
  destruct (no_increment_is_lost calls 4 3 (map (λ _, []) (pool_of calls)) σ.1 σ.2)
    as (_ & _ & _ & Hexact).
  - reflexivity.
  - reflexivity.
  - rewrite <- surjective_pairing. apply in_turn_runs.
  - repeat constructor.
  - apply Hexact. lia.
Defined.

(** ** [main] *)

Lemma for_i_seqZ (fuel : nat) (i bound : Z) (body : Z → mevent) :
  bound - i ≤ Z.of_nat fuel →
  for_i fuel i bound body = body <$> seqZ i (bound - i).
Proof.
  revert i. induction fuel as [| fuel IH]; intros i Hfuel; simpl.
  - by rewrite seqZ_nil by lia.
  - case_bool_decide.
    + rewrite (seqZ_cons i) by lia. rewrite fmap_cons, IH by lia.
      do 3 f_equal. lia.
    + by rewrite seqZ_nil by lia.
Qed.

Lemma goroutines_app (l1 l2 : list mevent) :
  goroutines (l1 ++ l2) = goroutines l1 ++ goroutines l2.
Proof. apply filter_app. Qed.

Lemma goroutines_go (f : workload) (ctx : Context) (s : nat) (l : list Z) :
  goroutines ((λ i, MGo f ctx i s) <$> l) = (λ i, MGo f ctx i s) <$> l.
Proof.
  unfold goroutines. induction l as [| i l IH]; [done |].
  rewrite fmap_cons, filter_cons_True by done. by rewrite IH.
Qed.

(** The goroutines of a phase, whether or not it goes on to panic. *)
Lemma phase_goroutines (title : string) (f : workload) (s : nat)
    (parent : Context) (o : Observed) :
  goroutines (phase title f s parent o).1 =
  (λ i, MGo f (WithTimeout parent (t_ctx o) d) i s) <$> seqZ 0 n.
Proof.
  unfold phase. rewrite for_i_seqZ by (unfold n; lia).
  replace (n - 0) with n by lia.
  case_bool_decide; cbn [fst];
    rewrite !goroutines_app, goroutines_go;
    change (goroutines [MPrintf _]) with (@nil mevent);
    change (goroutines [MAwait _; MPrintf _]) with (@nil mevent);
    try change (goroutines [MPrintf _; MPrintf _; MPrintf _]) with (@nil mevent);
    by rewrite ?app_nil_r.
Qed.

Lemma phase_runs_through (title : string) (f : workload) (s : nat)
    (parent : Context) (o : Observed) :
  whole_seconds (elapsed o) ≠ 0 → (phase title f s parent o).2 = None.
Proof. intros Hne. unfold phase. by rewrite bool_decide_eq_false_2. Qed.

Lemma elapsed_at_least (o : Observed) (t : Z) :
  t ≤ 2 ^ 63 - 1 → t ≤ t_done o - t_start o → t ≤ elapsed o.
Proof. unfold elapsed. lia. Qed.

Lemma whole_seconds_pos (t : Z) : Second ≤ t → 1 ≤ whole_seconds t.
Proof.
  intros Ht. unfold whole_seconds.
  apply Z.quot_le_lower_bound; unfold Second in *; lia.
Qed.

Lemma whole_seconds_zero (t : Z) : - Second < t < Second → whole_seconds t = 0.
Proof.
  intros Ht. unfold whole_seconds. apply Z.quot_small_iff; unfold Second in *; lia.
Qed.

Lemma NewSQLKV_succeeds (srv : Backend pg) :
  NewSQLKV srv = inl {| db := SetMaxIdleConns 30 srv |}.
Proof. reflexivity. Qed.

(** [main] once [Setup] has returned no error. *)
Lemma main_from_set_up {B : Type} `{!KV B} (kv kv' : B) (o1 o2 : Observed) :
  Setup Background kv = (None, kv') →
  main_from (inl kv) o1 o2 =
    let hd := [MSetup; MPrintf ("backend: " +:+ Name kv' +:+ nl)] in
    let r1 := phase "set" RunSet 1 Background o1 in
    let r2 := phase "get" RunGet 2 Background o2 in
    match r1.2 with
    | Some x => (hd ++ r1.1, x)
    | None => (hd ++ r1.1 ++ r2.1, default Returns r2.2)
    end.
Proof.
  intros Hsetup. unfold main_from. rewrite Hsetup. simpl.
  destruct (phase "set" RunSet 1 Background o1) as [ev1 [x |]]; [done |].
  by destruct (phase "get" RunGet 2 Background o2) as [ev2 [x |]].
Qed.

Lemma main_from_goroutines {B : Type} `{!KV B} (kv kv' : B) (o1 o2 : Observed) :
  Setup Background kv = (None, kv') →
  whole_seconds (elapsed o1) ≠ 0 →
  goroutines (main_from (inl kv) o1 o2).1 =
    goroutines (phase "set" RunSet 1 Background o1).1
    ++ goroutines (phase "get" RunGet 2 Background o2).1.
Proof.
  intros Hsetup H1. rewrite (main_from_set_up kv kv') by done. cbv zeta.
  rewrite (phase_runs_through "set") by done. cbn [fst].
  by rewrite !goroutines_app.
Qed.

(** C8.  When [Setup] returns an error [main] panics with it, having
    started no goroutine and printed nothing.  The constructor of the
    backend [main] uses does not fail.  When [Setup] returns no error
    [main] runs both phases to the end and returns, whatever the counters
    read: a pass of a worker whose call failed, or returned a value that
    was not expected, goes on to the next pass, and nothing a worker
    meets reaches [main].  (The clock is taken to give each phase its
    whole second, see C10.) *)
Theorem only_setup_failure_ends_the_run {B : Type} `{!KV B} `{!Timed B}
    (kv kv' : B) (o1 o2 : Observed) :
  (∀ e, Setup Background kv = (Some e, kv') →
        main_from (inl kv) o1 o2 = ([MSetup], Panics e)) ∧
  (∀ srv, ∃ s, NewSQLKV srv = inl s) ∧
  (Setup Background kv = (None, kv') →
   whole_seconds (elapsed o1) ≠ 0 → whole_seconds (elapsed o2) ≠ 0 →
   (main_from (inl kv) o1 o2).2 = Returns ∧
   length (goroutines (main_from (inl kv) o1 o2).1) = 200%nat) ∧
  (∀ ctx key value (w : World B),
     Done ctx (now (backend w)) = false →
     (∃ w', runSet_body ctx key value w = Continue w') ∧
     (∃ w', runGet_body ctx key value w = Continue w')).
Proof.
  split_and!.
  - intros e Hsetup. unfold main_from. by rewrite Hsetup.
  - intros srv. eexists. apply NewSQLKV_succeeds.
  - intros Hsetup H1 H2. split.
    + rewrite (main_from_set_up kv kv') by done. cbv zeta.
      by rewrite !phase_runs_through by done.
    + rewrite (main_from_goroutines kv kv') by done.
      rewrite !phase_goroutines, !length_app, !length_fmap, !length_seqZ.
      reflexivity.
  - intros ctx key value w Hd. split.
    + pose proof (runSet_body_shape ctx key value w) as Hs. rewrite Hd in Hs.
      destruct Hs as (w' & _ & _ & Hrun & _). by exists w'.
    + pose proof (runGet_body_shape ctx key value w) as Hs. rewrite Hd in Hs.
      destruct Hs as (w' & _ & _ & Hrun & _). by exists w'.
Qed.

Lemma only_setup_failure_ends_the_run_witness :
  let down := {| db := server_down 0 None |} in
  let up := pg_at 0 None in
  let o := observed_after d {| ok := 7; err := 5 |} in
  main_from (inl down) o o = ([MSetup], Panics refused) ∧
  (main_from (inl up) o o).2 = Returns ∧
  (∃ w', runSet_body (until 3) "key_1" "value_1" (fresh down Stats_zero)
         = Continue w').
Proof.
  intros down up o.
  destruct (only_setup_failure_ends_the_run down (sqlKV_Setup Background down).2 o o)
    as (Hfail & _ & _ & Hgo).
  destruct (only_setup_failure_ends_the_run up (sqlKV_Setup Background up).2 o o)
    as (_ & _ & Hrun & _).
  split_and!.
  - apply Hfail. reflexivity.
  - apply Hrun; [reflexivity | vm_compute; discriminate | vm_compute; discriminate].
  - apply (Hgo (until 3) "key_1" "value_1" (fresh down Stats_zero)). reflexivity.
Defined.

(** C9.  The constants: [n] is 100 and [d] is ten seconds; both
    constructors set the pool of idle connections to 30.  A phase starts
    one goroutine for each index from 0 to 99, and hands each of them
    the context and the [Stats] of the phase; a run that gets through
    [Setup] starts those of the write phase and then those of the read
    phase. *)
Theorem phase_starts_n_workers :
  n = 100 ∧ d = 10 * 1000000000 ∧
  (∀ srv s, NewSQLKV srv = inl s → MaxIdleConns (db s) = 30) ∧
  (∀ srv r, NewRedisKV srv = inl r → MaxIdleConns (client r) = 30) ∧
  (∀ title f s parent o,
     goroutines (phase title f s parent o).1 =
       (λ i, MGo f (WithTimeout parent (t_ctx o) d) i s) <$> seqZ 0 100 ∧
     length (goroutines (phase title f s parent o).1) = 100%nat ∧
     NoDup (seqZ 0 100)) ∧
  (∀ (B : Type) (K : KV B) (kv kv' : B) (o1 o2 : Observed),
     Setup Background kv = (None, kv') →
     whole_seconds (elapsed o1) ≠ 0 →
     goroutines (main_from (inl kv) o1 o2).1 =
       ((λ i, MGo RunSet (WithTimeout Background (t_ctx o1) d) i 1) <$> seqZ 0 100)
       ++ ((λ i, MGo RunGet (WithTimeout Background (t_ctx o2) d) i 2) <$> seqZ 0 100)).
Proof.
  split_and!; [done | done | | | |].
  - intros srv s. rewrite NewSQLKV_succeeds. by intros [= <-].
  - intros srv r. unfold NewRedisKV. by intros [= <-].
  - intros title f s parent o. rewrite phase_goroutines.
    change n with 100. split; [done |]. split; [| apply NoDup_seqZ].
    by rewrite length_fmap, length_seqZ.
  - intros B K kv kv' o1 o2 Hsetup H1.
    rewrite (main_from_goroutines kv kv') by done.
    by rewrite !phase_goroutines.
Qed.

Lemma phase_starts_n_workers_witness :
  let o := observed_after d {| ok := 7; err := 5 |} in
  MaxIdleConns (db {| db := SetMaxIdleConns 30 (server 0 None) |}) = 30 ∧
  length (goroutines (main (server 0 None) o o).1) = 200%nat.
Proof.
  intros o.
  destruct phase_starts_n_workers as (_ & _ & Hpool & _ & _ & Hmain).
  split.
  - apply (Hpool (server 0 None)). reflexivity.
  - unfold main. rewrite NewSQLKV_succeeds.
    rewrite (Hmain sqlKV _ _ (sqlKV_Setup Background
                                {| db := SetMaxIdleConns 30 (server 0 None) |}).2 o o).
    + by rewrite length_app, !length_fmap, !length_seqZ.
    + reflexivity.
    + vm_compute. discriminate.
Defined.

Lemma to_int64_range (z : Z) : - 2 ^ 63 ≤ to_int64 z < 2 ^ 63.
Proof.
  unfold to_int64.
  pose proof (Z.mod_pos_bound (z + 2 ^ 63) (2 ^ 64) ltac:(lia)). lia.
Qed.

Lemma quot_within (a q : Z) : 1 ≤ q → - 2 ^ 63 ≤ a < 2 ^ 63 → - 2 ^ 63 ≤ a ÷ q < 2 ^ 63.
Proof.
  intros Hq Ha. destruct (Z.le_gt_cases 0 a) as [Hpos | Hneg].
  - pose proof (Z.quot_pos a q Hpos ltac:(lia)).
    pose proof (Z.quot_le_upper_bound a q a ltac:(lia) ltac:(nia)). lia.
  - pose proof (Z.quot_opp_l a q ltac:(lia)) as Hopp.
    pose proof (Z.quot_pos (- a) q ltac:(lia) ltac:(lia)).
    pose proof (Z.quot_le_upper_bound (- a) q (- a) ltac:(lia) ltac:(nia)). lia.
Qed.

Lemma ops_quot (s : Stats) (t : Z) :
  1 ≤ whole_seconds t → ops s t = to_int64 (total s) ÷ (t ÷ Second).
Proof.
  intros Hq. unfold ops. apply to_int64_small, quot_within; [done |].
  apply to_int64_range.
Qed.

Lemma ops_div (s : Stats) (t : Z) :
  1 ≤ whole_seconds t → Stats_wf s → ok s + err s < 2 ^ 63 →
  ops s t = (ok s + err s) / (t / Second).
Proof.
  intros Hq [[Hok _] [Herr _]] Hsum. rewrite ops_quot by done.
  unfold total. rewrite wrap64_small by lia. rewrite to_int64_small by lia.
  unfold whole_seconds in Hq.
  assert (0 ≤ t) as Ht.
  { destruct (Z.le_gt_cases 0 t) as [? | Hneg]; [done |].
    pose proof (Z.quot_opp_l t Second ltac:(done)) as Hopp.
    pose proof (Z.quot_pos (- t) Second ltac:(lia) ltac:(unfold Second; lia)). lia. }
  rewrite (Z.quot_div_nonneg t Second) by (unfold Second; lia).
  rewrite Z.quot_div_nonneg; [done | lia |].
  rewrite <- (Z.quot_div_nonneg t Second) by (unfold Second; lia). lia.
Qed.

(** C10.  The phase prints as [ops] the quotient of the sum of the two
    counters, converted to [int64], by the number of whole seconds in
    the time elapsed, both divisions truncating.  When a second or more
    has elapsed the divisor is at least one and the phase runs to its
    end; when less than a second has elapsed the divisor is zero and the
    phase panics after the [total] line, before any [ops] line.  [main]
    wakes up from [<-ctx.Done()] no earlier than ten seconds after it
    made the context, so that, [time.Now()] being read within nine
    seconds of that, a second or more has elapsed. *)
Theorem ops_divides_by_whole_seconds (title : string) (f : workload) (s : nat)
    (parent : Context) (o : Observed) :
  (Second ≤ elapsed o →
     1 ≤ whole_seconds (elapsed o) ∧
     (phase title f s parent o).2 = None ∧
     MPrintf ("ops: " +:+ fmt_d (ops (at_ops o) (elapsed o)) +:+ nl)
       ∈ (phase title f s parent o).1 ∧
     ops (at_ops o) (elapsed o) = to_int64 (total (at_ops o)) ÷ (elapsed o ÷ Second) ∧
     (Stats_wf (at_ops o) → ok (at_ops o) + err (at_ops o) < 2 ^ 63 →
      ops (at_ops o) (elapsed o)
        = (ok (at_ops o) + err (at_ops o)) / (elapsed o / Second))) ∧
  (- Second < elapsed o < Second →
     whole_seconds (elapsed o) = 0 ∧
     (phase title f s parent o).2 = Some PanicsDivide ∧
     ∀ line, MPrintf ("ops: " +:+ line) ∉ (phase title f s parent o).1) ∧
  (deadline parent = None →
   t_ctx o ≤ t_start o ≤ t_ctx o + 9 * Second →
   Done (WithTimeout parent (t_ctx o) d) (t_done o) = true →
   Second ≤ elapsed o).
Proof.
  split_and!.
  - intros Ht. pose proof (whole_seconds_pos _ Ht) as Hq.
    split; [done |]. split; [apply phase_runs_through; lia |].
    split; [| split; [by apply ops_quot | by apply ops_div]].
    unfold phase. rewrite bool_decide_eq_false_2 by lia. cbn [fst].
    rewrite elem_of_app. right. apply list_elem_of_here.
  - intros Ht. pose proof (whole_seconds_zero _ Ht) as Hq.
    split; [done |]. unfold phase. rewrite bool_decide_eq_true_2 by done.
    split; [done |]. cbn [fst]. intros line.
    rewrite for_i_seqZ by (unfold n; lia).
    rewrite !elem_of_app, list_elem_of_fmap, !elem_of_cons, elem_of_nil.
    intros [[[=] | []] | [(i & [=] & _) | [[=] | [[=] | []]]]].
  - intros Hparent Hstart Hdone. unfold Done, WithTimeout in Hdone.
    simpl in Hdone. rewrite Hparent in Hdone.
    apply bool_decide_eq_true in Hdone. unfold d in Hdone.
    apply elapsed_at_least; unfold Second in *; lia.
Qed.

Lemma ops_divides_by_whole_seconds_witness :
  let o := {| t_ctx := 5; t_start := 105; t_done := 10 * Second + 7;
              at_total := {| ok := 940; err := 2 |};
              at_ops := {| ok := 941; err := 2 |};
              at_ok := {| ok := 941; err := 2 |};
              at_err := {| ok := 941; err := 3 |} |} in
  let o' := observed_after (Second - 1) {| ok := 941; err := 2 |} in
  Second ≤ elapsed o ∧
  ops (at_ops o) (elapsed o) = 943 / 9 ∧
  (phase "set" RunSet 1 Background o).2 = None ∧
  (phase "set" RunSet 1 Background o').2 = Some PanicsDivide.
Proof.
  intros o o'.
  destruct (ops_divides_by_whole_seconds "set" RunSet 1 Background o)
    as (Hrun & _ & Hwake).
  destruct (ops_divides_by_whole_seconds "set" RunSet 1 Background o')
    as (_ & Hpanic & _).
  assert (Second ≤ elapsed o) as Ht.
  { apply Hwake; [reflexivity | vm_compute; split; discriminate | reflexivity]. }
  destruct (Hrun Ht) as (_ & Hnone & _ & _ & Hops).
  split_and!; [done | | done |].
  - rewrite Hops; [reflexivity | vm_compute; repeat split; discriminate | reflexivity].
  - apply Hpanic. vm_compute. by split.
Defined.

(** * Further properties *)

(** ** Keys and values *)

Lemma key_of_inj (i j : Z) : key_of i = key_of j → i = j.
Proof.
  unfold key_of, fmt_d. intros Heq.
  apply (inj (String.app "key_")) in Heq. by apply (inj pretty) in Heq.
Qed.


Lemma value_of_not_empty (i : Z) : value_of i ≠ "".
Proof. unfold value_of. done. Qed.



(** ** The accounts of a worker *)

Section Accounts.
Context {B : Type} `{!KV B} `{!Timed B}.
Implicit Types (w : World B) (ctx : Context).

(** One pass of each loop, in full. *)
Lemma runSet_body_eq ctx (key value : string) w :
  runSet_body ctx key value w =
    if Done ctx (now (backend w)) then Return (log (EvSelect true) w)
    else
      let r := KV_Set ctx key value (backend w) in
      let σ := record_effect (stats w, stdout w) (set_record r.1) in
      Continue {| backend := r.2; stats := σ.1; stdout := σ.2;
                  trace := trace w ++ [EvSelect false; EvSet key value r.1;
                                       set_record r.1] |}.
Proof.
  unfold runSet_body, select_Done, do_Set.
  destruct (Done ctx (now (backend w))); [done |]. simpl.
  destruct (KV_Set ctx key value (backend w)) as [[e|] b]; simpl.
  - unfold do_Err. simpl. destruct (Stats_Err (stats w) (Some e)).
    simpl. by rewrite <- !app_assoc.
  - unfold do_OK. simpl. by rewrite <- !app_assoc.
Qed.

Lemma runGet_body_eq ctx (key value : string) w :
  runGet_body ctx key value w =
    if Done ctx (now (backend w)) then Return (log (EvSelect true) w)
    else
      let r := KV_Get ctx key (backend w) in
      let ev := get_record value r.1.1 r.1.2 in
      let σ := record_effect (stats w, stdout w) ev in
      Continue {| backend := r.2; stats := σ.1; stdout := σ.2;
                  trace := trace w ++ [EvSelect false; EvGet key r.1.1 r.1.2; ev] |}.
Proof.
  unfold runGet_body, select_Done, do_Get.
  destruct (Done ctx (now (backend w))); [done |]. simpl.
  destruct (KV_Get ctx key (backend w)) as [[v [e|]] b]; simpl.
  - unfold do_Err. simpl. destruct (Stats_Err (stats w) (Some e)).
    simpl. by rewrite <- !app_assoc.
  - unfold get_record. case_bool_decide.
    + unfold do_Err. simpl. by rewrite <- !app_assoc.
    + unfold do_OK. simpl. by rewrite <- !app_assoc.
Qed.

(** What every pass that goes on keeps, the world the loop returns from
    has. *)
Lemma loop_last (body : World B → flow (World B)) (I : World B → Prop) :
  (∀ w w', I w → body w = Continue w' → I w') →
  ∀ (fuel : nat) w w',
    I w → loop body fuel w = Some w' →
    ∃ w_last, I w_last ∧ body w_last = Return w'.
Proof.
  intros Hkeep fuel. induction fuel as [| fuel IH]; intros w w' HI Hrun; [done |].
  simpl in Hrun. destruct (body w) as [w1 | w1] eqn:Hbody.
  - injection Hrun as <-. eauto.
  - eapply IH; [| exact Hrun]. eauto.
Qed.

End Accounts.

Lemma count_app (f : event → bool) (t1 t2 : list event) :
  count f (t1 ++ t2) = count f t1 + count f t2.
Proof. unfold count. rewrite filter_app, length_app. lia. Qed.

Lemma count_nonneg (f : event → bool) (t : list event) : 0 ≤ count f t.
Proof. unfold count. lia. Qed.

Lemma replay_app (t1 t2 : list event) (σ : shared) :
  replay (t1 ++ t2) σ = replay t2 (replay t1 σ).
Proof. apply foldl_app. Qed.

Lemma record_effect_wf (σ : shared) (ev : event) :
  Stats_wf σ.1 → Stats_wf (record_effect σ ev).1.
Proof.
  intros [Hok Herr]. destruct ev as [| | | | e]; try done; simpl.
  - split; [apply wrap64_range | done].
  - unfold Stats_Err. destruct (errors_Is e DeadlineExceeded); [done |].
    split; [done | apply wrap64_range].
Qed.

Lemma record_effect_counts (s : Stats) (out : list string) (ev : event) :
  Stats_wf s →
  ok (record_effect (s, out) ev).1 = (ok s + count is_success [ev]) mod 2 ^ 64 ∧
  err (record_effect (s, out) ev).1 = (err s + count is_counted [ev]) mod 2 ^ 64 ∧
  (record_effect (s, out) ev).2 = out ++ lines_of [ev].
Proof.
  intros [Hok Herr].
  assert (ok s = (ok s + 0) mod 2 ^ 64) as Hok0
    by (by rewrite Z.add_0_r, Z.mod_small).
  assert (err s = (err s + 0) mod 2 ^ 64) as Herr0
    by (by rewrite Z.add_0_r, Z.mod_small).
  destruct ev as [| | | | e]; unfold count, lines_of; simpl;
    rewrite ?app_nil_r; try done.
  unfold Stats_Err. destruct (errors_Is e DeadlineExceeded) eqn:He; simpl.
  - rewrite filter_cons_False by (simpl; rewrite He; done). done.
  - rewrite filter_cons_True by (simpl; rewrite He; done). done.
Qed.

(** The counters and the output after the recorded calls of a trace. *)
Lemma replay_counts (t : list event) (s : Stats) (out : list string) :
  Stats_wf s →
  ok (replay t (s, out)).1 = (ok s + count is_success t) mod 2 ^ 64 ∧
  err (replay t (s, out)).1 = (err s + count is_counted t) mod 2 ^ 64 ∧
  (replay t (s, out)).2 = out ++ lines_of t.
Proof.
  revert s out. induction t as [| ev t IH]; intros s out Hwf.
  - destruct Hwf as [Hok Herr]. simpl. unfold count. simpl.
    rewrite !Z.add_0_r, !Z.mod_small by done. by rewrite app_nil_r.
  - change (replay (ev :: t) (s, out)) with (replay t (record_effect (s, out) ev)).
    pose proof (record_effect_wf (s, out) ev Hwf) as Hwf'.
    destruct (record_effect_counts s out ev Hwf) as (Hok1 & Herr1 & Hout1).
    destruct (record_effect (s, out) ev) as [s1 out1]. simpl in *.
    destruct (IH s1 out1 Hwf') as (Hok & Herr & Hout).
    rewrite Hok, Herr, Hout, Hok1, Herr1, Hout1.
    change (ev :: t) with ([ev] ++ t). rewrite !count_app.
    rewrite !Zplus_mod_idemp_l, !Z.add_assoc, app_nil_r, <- app_assoc. done.
Qed.

Lemma count_cons (f : event → bool) (ev : event) (t : list event) :
  count f (ev :: t) = (if f ev then 1 else 0) + count f t.
Proof.
  unfold count. destruct (f ev) eqn:Hf.
  - rewrite filter_cons_True by done. simpl length. lia.
  - rewrite filter_cons_False by (by rewrite Hf). lia.
Qed.

(** Every pass has one backend call and one call on the [Stats]. *)
Lemma passes_calls (t : list event) :
  passes t →
  count is_call t = count is_success t + count is_counted t + count is_discarded t.
Proof.
  induction 1 as [| c r t Hc Hr _ IH]; [done |].
  rewrite !count_cons, IH.
  destruct c as [b | k v e1 | k v e1 | | e1]; try done;
    destruct r as [b | k' v' e2 | k' v' e2 | | e2]; try done; simpl;
    try lia; destruct (errors_Is e2 DeadlineExceeded); simpl; lia.
Qed.

Lemma replay_pass (t : list event) (c r : event) (σ : shared) :
  is_call c = true →
  replay (t ++ [EvSelect false; c; r]) σ = record_effect (replay t σ) r.
Proof.
  intros Hc. rewrite replay_app. unfold replay at 1. simpl.
  by destruct c.
Qed.

Section LoopAccounts.
Context {B : Type} `{!KV B} `{!Timed B}.
Implicit Types (w : World B) (ctx : Context).

Lemma runSet_body_records ctx (key value : string) :
  pass_records ctx (runSet_body ctx key value).
Proof.
  intros w. rewrite runSet_body_eq.
  destruct (Done ctx (now (backend w))); [done |]. cbv zeta.
  eexists _, (EvSet key value (KV_Set ctx key value (backend w)).1),
    (set_record (KV_Set ctx key value (backend w)).1).
  split; [reflexivity |]. split; [reflexivity |].
  split; [by destruct (KV_Set ctx key value (backend w)).1 |].
  split; [reflexivity |]. simpl. by destruct (record_effect _ _).
Qed.

Lemma runGet_body_records ctx (key value : string) :
  pass_records ctx (runGet_body ctx key value).
Proof.
  intros w. rewrite runGet_body_eq.
  destruct (Done ctx (now (backend w))); [done |]. cbv zeta.
  eexists _, (EvGet key (KV_Get ctx key (backend w)).1.1 (KV_Get ctx key (backend w)).1.2),
    (get_record value (KV_Get ctx key (backend w)).1.1 (KV_Get ctx key (backend w)).1.2).
  split; [reflexivity |]. split; [reflexivity |].
  split.
  { unfold get_record. destruct (KV_Get ctx key (backend w)).1.2; [done |].
    by case_bool_decide. }
  split; [reflexivity |]. simpl. by destruct (record_effect _ _).
Qed.

Lemma loop_accounts ctx (body : World B → flow (World B)) :
  pass_records ctx body →
  ∀ (fuel : nat) w w',
    loop body fuel w = Some w' →
    ∃ t, passes t ∧
         trace w' = trace w ++ t ++ [EvSelect true] ∧
         (stats w', stdout w') = replay t (stats w, stdout w).
Proof.
  intros Hrec fuel w w' Hrun.
  destruct (loop_last body
    (λ w1, ∃ t, passes t ∧ trace w1 = trace w ++ t ∧
                (stats w1, stdout w1) = replay t (stats w, stdout w))
    ) with (fuel := fuel) (w := w) (w' := w') as (w_last & (t & Hp & Ht & Hσ) & Hret).
  - intros w1 w2 (t & Hp & Ht & Hσ) Hbody. specialize (Hrec w1).
    destruct (Done ctx (now (backend w1))); [congruence |].
    destruct Hrec as (w2' & c & r & Hbody' & Hc & Hr & Htr & Heff).
    assert (w2' = w2) as -> by congruence.
    exists (t ++ [EvSelect false; c; r]). split_and!.
    + apply passes_app; [done |]. by repeat constructor.
    + by rewrite Htr, Ht, app_assoc.
    + by rewrite replay_pass, <- Hσ.
  - exists []. split_and!; [constructor | by rewrite app_nil_r | done].
  - done.
  - specialize (Hrec w_last).
    destruct (Done ctx (now (backend w_last))).
    + assert (w' = log (EvSelect true) w_last) as -> by congruence.
      exists t. split_and!; [done | | done].
      simpl. by rewrite Ht, app_assoc.
    + destruct Hrec as (? & ? & ? & ? & _). congruence.
Qed.

End LoopAccounts.

(** X2.  A worker that has returned accounts for every backend call it
    made: the success counter went up by the number of calls of [OK] in
    its trace and the error counter by the number of calls of [Err] that
    were not discarded, as [uint64] values; one line was written for each
    of the latter, in order; and the backend calls are as many as the
    successes, the counted failures and the discarded failures together. *)
Theorem worker_accounts_for_every_call {B : Type} `{!KV B} `{!Timed B}
    (ctx : Context) (i : Z) (fuel : nat) (w w' : World B) :
  Stats_wf (stats w) →
  runSet ctx i fuel w = Some w' ∨ runGet ctx i fuel w = Some w' →
  ∃ t,
    trace w' = trace w ++ t ++ [EvSelect true] ∧
    ok (stats w') = (ok (stats w) + count is_success t) mod 2 ^ 64 ∧
    err (stats w') = (err (stats w) + count is_counted t) mod 2 ^ 64 ∧
    stdout w' = stdout w ++ lines_of t ∧
    count is_call t = count is_success t + count is_counted t + count is_discarded t.
Proof.
  intros Hwf Hrun.
  assert (∃ t, passes t ∧ trace w' = trace w ++ t ++ [EvSelect true] ∧
               (stats w', stdout w') = replay t (stats w, stdout w))
    as (t & Hp & Ht & Hσ).
  { destruct Hrun as [Hrun | Hrun].
    - eapply loop_accounts; [apply runSet_body_records | exact Hrun].
    - eapply loop_accounts; [apply runGet_body_records | exact Hrun]. }
  destruct (replay_counts t (stats w) (stdout w) Hwf) as (Hok & Herr & Hout).
  rewrite <- Hσ in Hok, Herr, Hout. simpl in *.
  exists t. split_and!; [done.. | by apply passes_calls].
Qed.

Lemma worker_accounts_for_every_call_witness :
  let w := fresh (pg_at 0 None) {| ok := 5; err := 2 ^ 64 - 1 |} in
  ∃ w' t,
    runSet (until 4) 7 10 w = Some w' ∧
    trace w' = t ++ [EvSelect true] ∧
    ok (stats w') = (5 + count is_success t) mod 2 ^ 64 ∧
    err (stats w') = (2 ^ 64 - 1 + count is_counted t) mod 2 ^ 64 ∧
    stdout w' = lines_of t.
Proof.
  intros w.
  pose (w' := default w (runSet (until 4) 7 10 w)).
  assert (runSet (until 4) 7 10 w = Some w') as Hrun by (vm_compute; reflexivity).
  destruct (worker_accounts_for_every_call (until 4) 7 10 w w')
    as (t & Ht & Hok & Herr & Hout & _).
  - vm_compute. repeat split; discriminate.
  - by left.
  - exists w', t. split_and!; done.
Defined.

(** ** The workers against the adapters *)

(** The calls of [sqlKV], case by case. *)
Lemma sqlKV_Set_eq (ctx : Context) (key value : string) (s : sqlKV) :
  sqlKV_Set ctx key value s =
    let t := clock (db s) + rtt (db s) in
    if Done ctx t
    then (Some (Sentinel DeadlineExceeded), {| db := at_time t (db s) |})
    else
      match fault (db s) with
      | Some e => (Some e, {| db := at_time t (db s) |})
      | None =>
          match data (db s) with
          | None => (Some no_table, {| db := at_time t (with_data None (db s)) |})
          | Some rows =>
              (None, {| db := at_time t (with_data (Some (<[key := value]> rows))
                                                   (db s)) |})
          end
      end.
Proof.
  unfold sqlKV_Set, exec_upsert, roundtrip. cbv zeta.
  destruct (Done ctx _); [done |].
  destruct (fault (db s)); [done |]. by destruct (data (db s)).
Qed.

Lemma sqlKV_Get_eq (ctx : Context) (key : string) (s : sqlKV) :
  sqlKV_Get ctx key s =
    let t := clock (db s) + rtt (db s) in
    if Done ctx t
    then (("", Some (Sentinel DeadlineExceeded)), {| db := at_time t (db s) |})
    else
      match fault (db s) with
      | Some e =>
          (("", if is_chain e ErrNoRows then None else Some e),
           {| db := at_time t (db s) |})
      | None =>
          match data (db s) with
          | None =>
              (("", Some no_table), {| db := at_time t (with_data None (db s)) |})
          | Some rows =>
              ((default "" (rows !! key), None),
               {| db := at_time t (with_data (Some rows) (db s)) |})
          end
      end.
Proof.
  unfold sqlKV_Get, query_scan, roundtrip. cbv zeta.
  destruct (Done ctx _); [done |].
  destruct (fault (db s)); [done |].
  destruct (data (db s)) as [rows |]; [| done].
  by destruct (rows !! key).
Qed.

(** The calls of [redisKV], case by case. *)
Lemma redisKV_Set_eq (ctx : Context) (key value : string) (r : redisKV) :
  redisKV_Set ctx key value r =
    let t := clock (client r) + rtt (client r) in
    if Done ctx t
    then (Some (Sentinel DeadlineExceeded), {| client := at_time t (client r) |})
    else
      match fault (client r) with
      | Some e => (Some e, {| client := at_time t (client r) |})
      | None =>
          (None, {| client := at_time t (with_data (<[key := value]> (data (client r)))
                                                   (client r)) |})
      end.
Proof.
  unfold redisKV_Set, redis_Set, roundtrip. cbv zeta.
  destruct (Done ctx _); [done |]. by destruct (fault (client r)).
Qed.

Lemma redisKV_Get_eq (ctx : Context) (key : string) (r : redisKV) :
  redisKV_Get ctx key r =
    let t := clock (client r) + rtt (client r) in
    if Done ctx t
    then (("", Some (Sentinel DeadlineExceeded)), {| client := at_time t (client r) |})
    else
      match fault (client r) with
      | Some e => (("", Some e), {| client := at_time t (client r) |})
      | None =>
          (match data (client r) !! key with
           | Some v => (v, None)
           | None => ("", Some (Sentinel RedisNil))
           end,
           {| client := at_time t (with_data (data (client r)) (client r)) |})
      end.
Proof.
  unfold redisKV_Get, redis_Get, roundtrip. cbv zeta.
  destruct (Done ctx _); [done |].
  destruct (fault (client r)); [done |].
  by destruct (data (client r) !! key).
Qed.

Lemma loop_keeps {A : Type} (body : A → flow A) (I : A → Prop) :
  (∀ a a', I a → body a = Continue a' → I a') →
  (∀ a a', I a → body a = Return a' → I a') →
  ∀ (fuel : nat) (a a' : A), I a → loop body fuel a = Some a' → I a'.
Proof.
  intros Hgo Hret fuel. induction fuel as [| fuel IH]; intros a a' HI Hrun; [done |].
  simpl in Hrun. destruct (body a) as [a1 | a1] eqn:Hbody.
  - injection Hrun as <-. eauto.
  - eapply IH; [| exact Hrun]. eauto.
Qed.

Lemma Stats_Err_keeps_ok (s : Stats) (e : option error) :
  ok (Stats_Err s e).1 = ok s.
Proof. unfold Stats_Err. by destruct (errors_Is e DeadlineExceeded). Qed.

Lemma Stats_Err_deadline (s : Stats) :
  Stats_Err s (Some (Sentinel DeadlineExceeded)) = (s, []).
Proof. reflexivity. Qed.

(** [runSet] against [sqlKV], on a table that exists. *)
Lemma sqlKV_runSet_keeps (ctx : Context) (i : Z) (fuel : nat) (w w' : World sqlKV)
    (rows0 : gmap string string) :
  data (db (backend w)) = Some rows0 →
  runSet ctx i fuel w = Some w' →
  fault (db (backend w')) = fault (db (backend w)) ∧
  (∃ rows, data (db (backend w')) = Some rows ∧
     (∀ k, k ≠ key_of i → rows !! k = rows0 !! k) ∧
     ((rows = rows0 ∧ ok (stats w') = ok (stats w))
      ∨ rows !! key_of i = Some (value_of i))) ∧
  (fault (db (backend w)) = None →
   err (stats w') = err (stats w) ∧ stdout w' = stdout w).
Proof.
  intros Hd Hrun.
  apply (loop_keeps (runSet_body ctx (key_of i) (value_of i))
    (λ w1 : World sqlKV,
       fault (db (backend w1)) = fault (db (backend w)) ∧
       (∃ rows, data (db (backend w1)) = Some rows ∧
          (∀ k, k ≠ key_of i → rows !! k = rows0 !! k) ∧
          ((rows = rows0 ∧ ok (stats w1) = ok (stats w))
           ∨ rows !! key_of i = Some (value_of i))) ∧
       (fault (db (backend w)) = None →
        err (stats w1) = err (stats w) ∧ stdout w1 = stdout w)))
    with (fuel := fuel) (a := w); [| | | exact Hrun].
  - intros w1 w2 (Hf & (rows & Hrows & Hoth & Hown) & Hhealthy) Hbody.
    rewrite runSet_body_eq in Hbody.
    destruct (Done ctx (now (backend w1))); [done |].
    injection Hbody as <-. cbn [backend stats stdout].
    change (KV_Set ctx (key_of i) (value_of i) (backend w1))
      with (sqlKV_Set ctx (key_of i) (value_of i) (backend w1)).
    rewrite sqlKV_Set_eq. cbv zeta.
    destruct (Done ctx (clock (db (backend w1)) + rtt (db (backend w1)))).
    { simpl. rewrite app_nil_r. split; [done |]. split; [| done]. eauto. }
    destruct (fault (db (backend w1))) as [e |] eqn:Hfault.
    { simpl. rewrite Hfault. split; [done |]. split.
      - exists rows. rewrite Stats_Err_keeps_ok. eauto.
      - intros Hnone. rewrite Hnone in Hf. done. }
    rewrite Hrows. simpl. rewrite Hfault. split; [done |]. split.
    + exists (<[key_of i := value_of i]> rows). split; [done |]. split.
      * intros k Hk. rewrite lookup_insert_ne by done. auto.
      * right. apply lookup_insert_eq.
    + done.
  - intros w1 w2 HI Hbody. rewrite runSet_body_eq in Hbody.
    destruct (Done ctx (now (backend w1))); [| done].
    by injection Hbody as <-.
  - split; [done |]. split; [| done]. exists rows0. auto.
Qed.

(** [runGet] against [sqlKV]. *)
Lemma sqlKV_runGet_keeps (ctx : Context) (i : Z) (fuel : nat) (w w' : World sqlKV) :
  runGet ctx i fuel w = Some w' →
  data (db (backend w')) = data (db (backend w)) ∧
  fault (db (backend w')) = fault (db (backend w)) ∧
  (fault (db (backend w)) = None →
   (∃ rows, data (db (backend w)) = Some rows ∧
            rows !! key_of i = Some (value_of i)) →
   err (stats w') = err (stats w) ∧ stdout w' = stdout w) ∧
  ((∀ rows, data (db (backend w)) = Some rows →
            rows !! key_of i ≠ Some (value_of i)) →
   ok (stats w') = ok (stats w)).
Proof.
  intros Hrun.
  apply (loop_keeps (runGet_body ctx (key_of i) (value_of i))
    (λ w1 : World sqlKV,
       data (db (backend w1)) = data (db (backend w)) ∧
       fault (db (backend w1)) = fault (db (backend w)) ∧
       (fault (db (backend w)) = None →
        (∃ rows, data (db (backend w)) = Some rows ∧
                 rows !! key_of i = Some (value_of i)) →
        err (stats w1) = err (stats w) ∧ stdout w1 = stdout w) ∧
       ((∀ rows, data (db (backend w)) = Some rows →
                 rows !! key_of i ≠ Some (value_of i)) →
        ok (stats w1) = ok (stats w))))
    with (fuel := fuel) (a := w); [| | | exact Hrun].
  - intros w1 w2 (Hdata & Hf & Hgood & Hbad) Hbody.
    rewrite runGet_body_eq in Hbody.
    destruct (Done ctx (now (backend w1))); [done |].
    injection Hbody as <-. cbn [backend stats stdout].
    change (KV_Get ctx (key_of i) (backend w1))
      with (sqlKV_Get ctx (key_of i) (backend w1)).
    rewrite sqlKV_Get_eq. cbv zeta.
    destruct (Done ctx (clock (db (backend w1)) + rtt (db (backend w1)))).
    { simpl. rewrite app_nil_r. done. }
    destruct (fault (db (backend w1))) as [e |] eqn:Hfault.
    { cbn [fst snd db data fault at_time]. rewrite Hfault.
      split; [done |]. split; [done |]. split.
      - intros Hnone. rewrite Hnone in Hf. done.
      - intros Hne. specialize (Hbad Hne).
        destruct (is_chain e ErrNoRows); simpl.
        + done.
        + by rewrite Stats_Err_keeps_ok. }
    destruct (data (db (backend w1))) as [rows |] eqn:Hrows.
    + cbn [fst snd db data fault at_time with_data]. rewrite Hfault.
      split; [done |]. split; [done |]. split.
      * intros Hnone (rows' & Hrows' & Hl). rewrite Hrows' in Hdata.
        injection Hdata as ->. rewrite Hl. simpl.
        rewrite bool_decide_eq_false_2 by (intros Hne; by apply Hne).
        simpl. apply Hgood; eauto.
      * intros Hne. specialize (Hbad Hne). unfold get_record.
        rewrite bool_decide_eq_true_2.
        -- simpl. done.
        -- intros Heq. apply (Hne rows); [done |].
           destruct (rows !! key_of i) as [v |]; simpl in Heq; [by subst |].
           by destruct (value_of_not_empty i).
    + cbn [fst snd db data fault at_time with_data]. rewrite Hfault.
      split; [done |]. split; [done |]. split.
      * intros _ (rows' & Hrows' & _). congruence.
      * intros Hne. simpl. auto.
  - intros w1 w2 HI Hbody. rewrite runGet_body_eq in Hbody.
    destruct (Done ctx (now (backend w1))); [| done].
    by injection Hbody as <-.
  - done.
Qed.

(** [runSet] against [redisKV]. *)
Lemma redisKV_runSet_keeps (ctx : Context) (i : Z) (fuel : nat) (w w' : World redisKV) :
  runSet ctx i fuel w = Some w' →
  fault (client (backend w')) = fault (client (backend w)) ∧
  (∀ k, k ≠ key_of i →
        data (client (backend w')) !! k = data (client (backend w)) !! k) ∧
  ((data (client (backend w')) = data (client (backend w))
    ∧ ok (stats w') = ok (stats w))
   ∨ data (client (backend w')) !! key_of i = Some (value_of i)) ∧
  (fault (client (backend w)) = None →
   err (stats w') = err (stats w) ∧ stdout w' = stdout w).
Proof.
  intros Hrun.
  apply (loop_keeps (runSet_body ctx (key_of i) (value_of i))
    (λ w1 : World redisKV,
       fault (client (backend w1)) = fault (client (backend w)) ∧
       (∀ k, k ≠ key_of i →
             data (client (backend w1)) !! k = data (client (backend w)) !! k) ∧
       ((data (client (backend w1)) = data (client (backend w))
         ∧ ok (stats w1) = ok (stats w))
        ∨ data (client (backend w1)) !! key_of i = Some (value_of i)) ∧
       (fault (client (backend w)) = None →
        err (stats w1) = err (stats w) ∧ stdout w1 = stdout w)))
    with (fuel := fuel) (a := w); [| | | exact Hrun].
  - intros w1 w2 (Hf & Hoth & Hown & Hhealthy) Hbody.
    rewrite runSet_body_eq in Hbody.
    destruct (Done ctx (now (backend w1))); [done |].
    injection Hbody as <-. cbn [backend stats stdout].
    change (KV_Set ctx (key_of i) (value_of i) (backend w1))
      with (redisKV_Set ctx (key_of i) (value_of i) (backend w1)).
    rewrite redisKV_Set_eq. cbv zeta.
    destruct (Done ctx (clock (client (backend w1)) + rtt (client (backend w1)))).
    { simpl. rewrite app_nil_r. done. }
    destruct (fault (client (backend w1))) as [e |] eqn:Hfault.
    { simpl. rewrite Hfault, Stats_Err_keeps_ok. split; [done |].
      split; [done |]. split; [done |].
      intros Hnone. rewrite Hnone in Hf. done. }
    simpl. rewrite Hfault. split; [done |]. split; [| split].
    + intros k Hk. rewrite lookup_insert_ne by done. auto.
    + right. apply lookup_insert_eq.
    + done.
  - intros w1 w2 HI Hbody. rewrite runSet_body_eq in Hbody.
    destruct (Done ctx (now (backend w1))); [| done].
    by injection Hbody as <-.
  - split; [done |]. split; [done |]. split; [by left | done].
Qed.

(** [runGet] against [redisKV]. *)
Lemma redisKV_runGet_keeps (ctx : Context) (i : Z) (fuel : nat) (w w' : World redisKV) :
  runGet ctx i fuel w = Some w' →
  data (client (backend w')) = data (client (backend w)) ∧
  fault (client (backend w')) = fault (client (backend w)) ∧
  (fault (client (backend w)) = None →
   data (client (backend w)) !! key_of i = Some (value_of i) →
   err (stats w') = err (stats w) ∧ stdout w' = stdout w) ∧
  (data (client (backend w)) !! key_of i ≠ Some (value_of i) →
   ok (stats w') = ok (stats w)).
Proof.
  intros Hrun.
  apply (loop_keeps (runGet_body ctx (key_of i) (value_of i))
    (λ w1 : World redisKV,
       data (client (backend w1)) = data (client (backend w)) ∧
       fault (client (backend w1)) = fault (client (backend w)) ∧
       (fault (client (backend w)) = None →
        data (client (backend w)) !! key_of i = Some (value_of i) →
        err (stats w1) = err (stats w) ∧ stdout w1 = stdout w) ∧
       (data (client (backend w)) !! key_of i ≠ Some (value_of i) →
        ok (stats w1) = ok (stats w))))
    with (fuel := fuel) (a := w); [| | | exact Hrun].
  - intros w1 w2 (Hdata & Hf & Hgood & Hbad) Hbody.
    rewrite runGet_body_eq in Hbody.
    destruct (Done ctx (now (backend w1))); [done |].
    injection Hbody as <-. cbn [backend stats stdout].
    change (KV_Get ctx (key_of i) (backend w1))
      with (redisKV_Get ctx (key_of i) (backend w1)).
    rewrite redisKV_Get_eq. cbv zeta.
    destruct (Done ctx (clock (client (backend w1)) + rtt (client (backend w1)))).
    { simpl. rewrite app_nil_r. done. }
    destruct (fault (client (backend w1))) as [e |] eqn:Hfault.
    { cbn [fst snd client data fault at_time]. rewrite Hfault.
      split; [done |]. split; [done |]. split.
      - intros Hnone. rewrite Hnone in Hf. done.
      - intros Hne. simpl. rewrite Stats_Err_keeps_ok. auto. }
    cbn [fst snd client data fault at_time with_data]. rewrite Hfault, Hdata.
    split; [done |]. split; [done |]. split.
    + intros Hnone Hl. rewrite Hl. simpl.
      rewrite bool_decide_eq_false_2 by (intros Hne; by apply Hne).
      simpl. auto.
    + intros Hne. specialize (Hbad Hne).
      destruct (data (client (backend w)) !! key_of i) as [v |] eqn:Hl; simpl.
      * rewrite bool_decide_eq_true_2 by congruence. done.
      * done.
  - intros w1 w2 HI Hbody. rewrite runGet_body_eq in Hbody.
    destruct (Done ctx (now (backend w1))); [| done].
    by injection Hbody as <-.
  - done.
Qed.

(** X3.  A write worker changes no row but its own: when it has
    returned, the row of every other key, the keys of the other workers
    among them, is as it was, and the row of its own key is as it was or
    holds its value. *)
Theorem runSet_writes_only_its_key (ctx : Context) (i j : Z) (fuel : nat) :
  j ≠ i →
  (∀ (w w' : World sqlKV) (rows0 : gmap string string),
     data (db (backend w)) = Some rows0 →
     runSet ctx i fuel w = Some w' →
     ∃ rows, data (db (backend w')) = Some rows ∧
       (∀ k, k ≠ key_of i → rows !! k = rows0 !! k) ∧
       rows !! key_of j = rows0 !! key_of j ∧
       (rows !! key_of i = rows0 !! key_of i
        ∨ rows !! key_of i = Some (value_of i))) ∧
  (∀ (w w' : World redisKV),
     runSet ctx i fuel w = Some w' →
     (∀ k, k ≠ key_of i →
           data (client (backend w')) !! k = data (client (backend w)) !! k) ∧
     data (client (backend w')) !! key_of j = data (client (backend w)) !! key_of j ∧
     (data (client (backend w')) !! key_of i = data (client (backend w)) !! key_of i
      ∨ data (client (backend w')) !! key_of i = Some (value_of i))).
Proof.
  intros Hne.
  assert (key_of j ≠ key_of i) as Hkey by (intros Heq; by apply key_of_inj in Heq).
  split.
  - intros w w' rows0 Hd Hrun.
    destruct (sqlKV_runSet_keeps ctx i fuel w w' rows0 Hd Hrun)
      as (_ & (rows & Hrows & Hoth & Hown) & _).
    exists rows. split_and!; [done | done | by apply Hoth |].
    destruct Hown as [[-> _] | Hown]; auto.
  - intros w w' Hrun.
    destruct (redisKV_runSet_keeps ctx i fuel w w' Hrun) as (_ & Hoth & Hown & _).
    split_and!; [done | by apply Hoth |].
    destruct Hown as [[-> _] | Hown]; auto.
Qed.

Lemma runSet_writes_only_its_key_witness :
  let rows0 : gmap string string := {[ "key_8" := "value_8"; "key_7" := "old" ]} in
  let w := fresh (pg_at 0 (Some rows0)) Stats_zero in
  let r := fresh (redis_at 0 rows0) Stats_zero in
  ∃ w' r' rows,
    runSet (until 3) 7 10 w = Some w' ∧ runSet (until 3) 7 10 r = Some r' ∧
    data (db (backend w')) = Some rows ∧
    rows !! key_of 8 = Some "value_8" ∧
    data (client (backend r')) !! key_of 8 = Some "value_8".
Proof.
  intros rows0 w r.
  pose (w' := default w (runSet (until 3) 7 10 w)).
  pose (r' := default r (runSet (until 3) 7 10 r)).
  assert (runSet (until 3) 7 10 w = Some w') as Hw by (vm_compute; reflexivity).
  assert (runSet (until 3) 7 10 r = Some r') as Hr by (vm_compute; reflexivity).
  destruct (runSet_writes_only_its_key (until 3) 7 8 10) as [Hsql Hredis]; [lia |].
  destruct (Hsql w w' rows0 eq_refl Hw) as (rows & Hrows & _ & Hj & _).
  destruct (Hredis r r' Hr) as (_ & Hj' & _).
  exists w', r', rows. split_and!; [done | done | done | |].
  - rewrite Hj. reflexivity.
  - rewrite Hj'. reflexivity.
Defined.



(** X5.  A read worker changes nothing in the store, whatever its calls
    of [Get] return. *)
Theorem runGet_changes_no_row (ctx : Context) (i : Z) (fuel : nat) :
  (∀ (w w' : World sqlKV),
     runGet ctx i fuel w = Some w' →
     data (db (backend w')) = data (db (backend w))) ∧
  (∀ (w w' : World redisKV),
     runGet ctx i fuel w = Some w' →
     data (client (backend w')) = data (client (backend w))).
Proof.
  split.
  - intros w w' Hrun. by destruct (sqlKV_runGet_keeps ctx i fuel w w' Hrun).
  - intros w w' Hrun. by destruct (redisKV_runGet_keeps ctx i fuel w w' Hrun).
Qed.

Lemma runGet_changes_no_row_witness :
  let rows0 : gmap string string := {[ "key_7" := "value_7"; "key_8" := "old" ]} in
  let w := fresh (pg_at 0 (Some rows0)) Stats_zero in
  let r := fresh (redis_at 0 rows0) Stats_zero in
  ∃ w' r',
    runGet (until 3) 7 10 w = Some w' ∧ runGet (until 3) 8 10 r = Some r' ∧
    data (db (backend w')) = Some rows0 ∧ data (client (backend r')) = rows0.
Proof.
  intros rows0 w r.
  pose (w' := default w (runGet (until 3) 7 10 w)).
  pose (r' := default r (runGet (until 3) 8 10 r)).
  assert (runGet (until 3) 7 10 w = Some w') as Hw by (vm_compute; reflexivity).
  assert (runGet (until 3) 8 10 r = Some r') as Hr by (vm_compute; reflexivity).
  destruct (runGet_changes_no_row (until 3) 7 10) as [Hsql _].
  destruct (runGet_changes_no_row (until 3) 8 10) as [_ Hredis].
  exists w', r'. split_and!; [done | done | |].
  - by rewrite (Hsql w w' Hw).
  - by rewrite (Hredis r r' Hr).
Defined.



(** X7.  A read worker counts a success only when the store holds its
    value under its key: against a store where the key is absent or
    holds another value (or, for [sqlKV], whose table is missing), the
    success counter is, when the worker has returned, what it was. *)
Theorem no_success_without_the_value (ctx : Context) (i : Z) (fuel : nat) :
  (∀ (w w' : World sqlKV),
     (∀ rows, data (db (backend w)) = Some rows →
              rows !! key_of i ≠ Some (value_of i)) →
     runGet ctx i fuel w = Some w' →
     ok (stats w') = ok (stats w)) ∧
  (∀ (w w' : World redisKV),
     data (client (backend w)) !! key_of i ≠ Some (value_of i) →
     runGet ctx i fuel w = Some w' →
     ok (stats w') = ok (stats w)).
Proof.
  split.
  - intros w w' Hne Hrun.
    destruct (sqlKV_runGet_keeps ctx i fuel w w' Hrun) as (_ & _ & _ & Hbad).
    by apply Hbad.
  - intros w w' Hne Hrun.
    destruct (redisKV_runGet_keeps ctx i fuel w w' Hrun) as (_ & _ & _ & Hbad).
    by apply Hbad.
Qed.

Lemma no_success_without_the_value_witness :
  let w := fresh (pg_at 0 (Some ∅)) {| ok := 6; err := 0 |} in
  let r := fresh (redis_at 0 {[ "key_7" := "value_8" ]}) {| ok := 6; err := 0 |} in
  ∃ w' r',
    runGet (until 3) 7 10 w = Some w' ∧ runGet (until 3) 7 10 r = Some r' ∧
    ok (stats w') = 6 ∧ ok (stats r') = 6.
Proof.
  intros w r.
  pose (w' := default w (runGet (until 3) 7 10 w)).
  pose (r' := default r (runGet (until 3) 7 10 r)).
  assert (runGet (until 3) 7 10 w = Some w') as Hw by (vm_compute; reflexivity).
  assert (runGet (until 3) 7 10 r = Some r') as Hr by (vm_compute; reflexivity).
  destruct (no_success_without_the_value (until 3) 7 10) as [Hsql Hredis].
  exists w', r'. split_and!; [done | done | |].
  - apply (Hsql w w'); [| done]. intros rows [= <-]. by rewrite lookup_empty.
  - apply (Hredis r r'); [| done]. vm_compute. discriminate.
Defined.



(** X9.  Against either adapter, when every call takes time, both
    workers return: with a deadline [t] and the clock at [c], no more than
    [t - c + 1] passes are made, the last of which finds the context
    done. *)
Theorem workers_return_after_the_deadline (ctx : Context) (t i : Z) :
  deadline ctx = Some t →
  (∀ w : World sqlKV,
     0 < rtt (db (backend w)) →
     (∃ w', runSet ctx i (S (Z.to_nat (t - clock (db (backend w))))) w = Some w') ∧
     (∃ w', runGet ctx i (S (Z.to_nat (t - clock (db (backend w))))) w = Some w')) ∧
  (∀ w : World redisKV,
     0 < rtt (client (backend w)) →
     (∃ w', runSet ctx i (S (Z.to_nat (t - clock (client (backend w))))) w = Some w') ∧
     (∃ w', runGet ctx i (S (Z.to_nat (t - clock (client (backend w))))) w = Some w')).
Proof.
  intros Ht. split.
  - intros w Hrtt. by apply sqlKV_workers_return.
  - intros w Hrtt. by apply redisKV_workers_return.
Qed.

Lemma workers_return_after_the_deadline_witness :
  let w := fresh (pg_at 2 (Some ∅)) Stats_zero in
  let r := fresh (redis_at 40 ∅) Stats_zero in
  (∃ w', runSet (until 30) 7 29 w = Some w') ∧
  (∃ r', runGet (until 30) 7 1 r = Some r').
Proof.
  intros w r.
  destruct (workers_return_after_the_deadline (until 30) 30 7 eq_refl) as [Hsql Hredis].
  split.
  - apply (Hsql w). reflexivity.
  - apply (Hredis r). reflexivity.
Defined.

(** X10.  [sqlKV.Setup] that returns no error leaves an empty table,
    whatever was stored and whether or not the table existed: a key set
    before is gone, and a [Set] after it finds the table.
    [redisKV.Setup] makes no call: it returns no error even when the
    context is done or the server is down, and a key set before is still
    there. *)
Theorem Setup_empties_sql_and_keeps_redis (ctx ctx0 ctx' : Context) (k v : string) :
  (∀ s s' : sqlKV,
     sqlKV_Setup ctx0 s = (None, s') →
     data (db s') = Some ∅ ∧
     (in_time ctx' (db s') →
      (sqlKV_Get ctx' k s').1 = ("", None) ∧
      (sqlKV_Set ctx' k v s').1 = None)) ∧
  (∀ r r1 : redisKV,
     redisKV_Setup ctx0 r1 = (None, r1) ∧
     (redisKV_Set ctx k v r = (None, r1) →
      in_time ctx' (client r1) →
      (redisKV_Get ctx' k (redisKV_Setup ctx0 r1).2).1 = (v, None))).
Proof.
  split.
  - intros s s' Hsetup.
    assert (data (db s') = Some ∅ ∧ fault (db s') = None) as [Hd Hf].
    { revert Hsetup. unfold sqlKV_Setup, exec_recreate, roundtrip.
      destruct (Done ctx0 _); [done |].
      destruct (fault (db s)) eqn:Hfault; [done |].
      by intros [= <-]. }
    split; [done |]. intros Ht. split.
    + rewrite (sqlKV_Get_served ctx' k s' ∅) by done. by rewrite lookup_empty.
    + rewrite sqlKV_Set_eq. cbv zeta. unfold in_time in Ht.
      by rewrite Ht, Hf, Hd.
  - intros r r1. split; [done |]. intros Hset Ht.
    destruct (redisKV_Set_served _ _ _ _ _ Hset) as (Hr1 & Hf).
    simpl. rewrite redisKV_Get_served; [| done | by rewrite Hr1].
    rewrite Hr1. simpl. by rewrite lookup_insert_eq.
Qed.

Lemma Setup_empties_sql_and_keeps_redis_witness :
  let s := pg_at 0 (Some {[ "key_7" := "value_7" ]}) in
  let s' := (sqlKV_Setup Background s).2 in
  let r1 := (redisKV_Set Background "key_7" "value_7" (redis_at 0 ∅)).2 in
  (sqlKV_Get Background "key_7" s).1 = ("value_7", None) ∧
  (sqlKV_Get Background "key_7" s').1 = ("", None) ∧
  (redisKV_Get Background "key_7" (redisKV_Setup (until 0) r1).2).1 = ("value_7", None).
Proof.
  intros s s' r1.
  destruct (Setup_empties_sql_and_keeps_redis Background Background Background
              "key_7" "value_7") as [Hsql _].
  destruct (Setup_empties_sql_and_keeps_redis Background (until 0) Background
              "key_7" "value_7") as [_ Hredis].
  split; [reflexivity |]. split.
  - destruct (Hsql s s' eq_refl) as [_ Hget]. by apply Hget.
  - destruct (Hredis (redis_at 0 ∅) r1) as [_ Hget].
    apply Hget; reflexivity.
Defined.

(** ** The log and the error counter *)

Lemma paired_midway (l : list action) : paired l = true → midway l = true.
Proof. unfold midway. by intros ->. Qed.

Lemma midway_tail (a : action) (rest : list action) :
  midway (a :: rest) = true → midway rest = true.
Proof.
  unfold midway. destruct a as [line | |].
  - destruct rest as [| [line' | |] rest]; try done.
    simpl. rewrite orb_false_r. done.
  - simpl. rewrite orb_false_r. by intros ->.
  - simpl. by intros ->.
Qed.

Lemma paired_actions_of (c : call) (l : list action) :
  paired (actions_of c ++ l) = paired l.
Proof.
  destruct c as [| e]; simpl; [done |].
  by destruct (errors_Is e DeadlineExceeded).
Qed.

Lemma paired_calls (cs : list call) : paired (cs ≫= actions_of) = true.
Proof.
  induction cs as [| c cs IH]; [done |].
  by rewrite bind_cons, paired_actions_of.
Qed.

(** In what a goroutine has left, the writes are no more than the
    additions to the error counter. *)
Lemma midway_counts (l : list action) :
  midway l = true →
  (length (filter (λ a, is_print a = true) l)
   ≤ length (filter (λ a, is_add_err a = true) l))%nat.
Proof.
  remember (length l) as m eqn:Hm. revert l Hm.
  induction m as [m IH] using lt_wf_ind. intros l Hm Hmid.
  destruct l as [| a rest]; [done |].
  destruct a as [line | |].
  - destruct rest as [| [| |] rest]; try done.
    rewrite filter_cons_True by done.
    rewrite (filter_cons_False _ (ActPrint line)) by done.
    rewrite filter_cons_False by done.
    rewrite (filter_cons_True _ ActAddErr) by done. simpl.
    apply le_n_S. apply (IH (length rest)); [simpl in Hm; lia | done |].
    apply paired_midway. unfold midway in Hmid. simpl in Hmid.
    by rewrite orb_false_r in Hmid.
  - rewrite !filter_cons_False by done.
    apply (IH (length rest)); [simpl in Hm; lia | done |].
    by apply midway_tail in Hmid.
  - rewrite filter_cons_False by done. rewrite filter_cons_True by done. simpl.
    apply Nat.le_le_succ_r.
    apply (IH (length rest)); [simpl in Hm; lia | done |].
    by apply midway_tail in Hmid.
Qed.

Lemma pending_cons (f : action → bool) (l : list action) (p : pool) :
  pending f (l :: p)
  = Z.of_nat (length (filter (λ a, f a = true) l)) + pending f p.
Proof. unfold pending. rewrite concat_cons, filter_app, length_app. lia. Qed.

Lemma midway_pending (p : pool) :
  Forall (λ l, midway l = true) p →
  pending is_print p ≤ pending is_add_err p.
Proof.
  induction 1 as [| l p Hl _ IH]; [done |].
  rewrite !pending_cons. pose proof (midway_counts l Hl). lia.
Qed.

(** What the interleavings keep when the error counter cannot wrap. *)
Lemma step_log (T : Z) (x y : pool * shared) :
  T < 2 ^ 64 →
  step x y →
  Forall (λ l, midway l = true) x.1 ∧
  Z.of_nat (length x.2.2) + pending is_print x.1 = T ∧
  0 ≤ err x.2.1 ∧ err x.2.1 + pending is_add_err x.1 = T →
  Forall (λ l, midway l = true) y.1 ∧
  Z.of_nat (length y.2.2) + pending is_print y.1 = T ∧
  0 ≤ err y.2.1 ∧ err y.2.1 + pending is_add_err y.1 = T.
Proof.
  intros HT Hstep (Hmid & Hout & Herr & Hadd).
  destruct Hstep as [before after a rest [s out]]. simpl in *.
  rewrite (pending_pick is_print) in Hout.
  rewrite (pending_pick is_add_err) in Hadd.
  assert (0 ≤ pending is_add_err (before ++ rest :: after)) by (unfold pending; lia).
  split.
  { apply Forall_app in Hmid as [Hb Ha]. apply Forall_cons in Ha as [Hl Ha].
    apply Forall_app. split; [done |]. apply Forall_cons. split; [| done].
    by apply midway_tail in Hl. }
  destruct a as [line | |]; simpl in *.
  - rewrite length_app. simpl. split_and!; lia.
  - split_and!; lia.
  - rewrite wrap64_small by lia. split_and!; lia.
Qed.

(** X11.  [Err] writes its line before it adds to the counter: however
    the goroutines interleave, and at every moment, the error counter is
    no more than the number of lines written, which is no more than the
    number of calls of [Err] with an error that is counted; once all the
    goroutines have finished the three are equal.  (The number of those
    calls fits a [uint64].) *)
Theorem log_keeps_up_with_the_counter (calls : list (list call))
    (p' : pool) (s' : Stats) (out' : list string) :
  tally counted_err calls < 2 ^ 64 →
  runs_to (pool_of calls, (Stats_zero, [])) (p', (s', out')) →
  err s' ≤ Z.of_nat (length out') ≤ tally counted_err calls ∧
  (finished p' →
   err s' = tally counted_err calls ∧
   Z.of_nat (length out') = tally counted_err calls).
Proof.
  intros HT Hruns.
  assert (Forall (λ l, midway l = true) (p', (s', out')).1 ∧
          Z.of_nat (length (p', (s', out')).2.2) + pending is_print (p', (s', out')).1
            = tally counted_err calls ∧
          0 ≤ err (p', (s', out')).2.1 ∧
          err (p', (s', out')).2.1 + pending is_add_err (p', (s', out')).1
            = tally counted_err calls) as (Hmid & Hout & Herr & Hadd).
  { unfold runs_to in Hruns. revert Hruns.
    apply (rtc_ind_r (λ z : pool * shared,
      Forall (λ l, midway l = true) z.1 ∧
      Z.of_nat (length z.2.2) + pending is_print z.1 = tally counted_err calls ∧
      0 ≤ err z.2.1 ∧
      err z.2.1 + pending is_add_err z.1 = tally counted_err calls)).
    - simpl. split_and!.
      + unfold pool_of. apply Forall_fmap, Forall_forall. intros cs _. simpl.
        apply paired_midway, paired_calls.
      + rewrite (pending_pool_of is_print counted_err); [done |].
        intros [| e]; simpl; [done |].
        by destruct (errors_Is e DeadlineExceeded).
      + done.
      + rewrite (pending_pool_of is_add_err counted_err); [done |].
        intros [| e]; simpl; [done |].
        by destruct (errors_Is e DeadlineExceeded).
    - intros y z _ Hstep IH. by apply (step_log _ y z HT). }
  simpl in *.
  pose proof (midway_pending p' Hmid) as Hle.
  assert (0 ≤ pending is_print p') by (unfold pending; lia).
  split; [lia |].
  intros Hfin. rewrite !pending_finished in * by done. lia.
Qed.

Lemma log_keeps_up_with_the_counter_witness :
  let calls :=
    [[CallOK; CallErr (Some refused)];
     [CallErr (Some (Sentinel DeadlineExceeded)); CallErr None];
     [CallOK]] in
  let σ := in_turn (pool_of calls) (Stats_zero, []) in
  err σ.1 = 2 ∧ Z.of_nat (length σ.2) = 2.
Proof.
  intros calls σ.
  destruct (log_keeps_up_with_the_counter calls (map (λ _, []) (pool_of calls))
              σ.1 σ.2) as [_ Hfin].
  - vm_compute. reflexivity.
  - rewrite <- surjective_pairing. apply in_turn_runs.
  - destruct Hfin as [He Ho]; [repeat constructor |].
    by rewrite He, Ho.
Defined.

(** ** What [main] prints *)

Lemma printed_app (l1 l2 : list mevent) :
  printed (l1 ++ l2) = printed l1 ++ printed l2.
Proof. apply bind_app. Qed.

Lemma printed_go (f : workload) (ctx : Context) (s : nat) (l : list Z) :
  printed ((λ i, MGo f ctx i s) <$> l) = [].
Proof. induction l as [| i l IH]; [done |]. by rewrite fmap_cons. Qed.

(** What a phase prints: its report when it runs to its end, the first
    two lines of it when it panics. *)
Lemma phase_printed (title : string) (f : workload) (s : nat)
    (parent : Context) (o : Observed) :
  printed (phase title f s parent o).1 =
    if bool_decide (whole_seconds (elapsed o) = 0)
    then take 2 (report title o)
    else report title o.
Proof.
  unfold phase. rewrite for_i_seqZ by (unfold n; lia).
  case_bool_decide; cbn [fst];
    rewrite !printed_app, printed_go; reflexivity.
Qed.

(** [Setup] as [main] calls it, on the handle [NewSQLKV] makes. *)
Lemma main_Setup (srv : Backend pg) :
  (sqlKV_Setup Background {| db := SetMaxIdleConns 30 srv |}).1 = fault srv.
Proof.
  unfold sqlKV_Setup, exec_recreate, roundtrip. simpl.
  by destruct (fault srv).
Qed.

(** X12.  [main] against a PostgreSQL server.  When the server fails the
    call of [Setup], [main] panics with that error and has printed
    nothing.  Otherwise, each phase lasting a second or more, [main]
    returns and has printed eleven lines: the name of the backend, and
    for the write phase and then for the read phase the title, [total],
    [ops], [ok] and [err]. *)
Theorem main_prints_two_reports (srv : Backend pg) (o1 o2 : Observed) :
  (∀ e, fault srv = Some e →
        main srv o1 o2 = ([MSetup], Panics e) ∧ printed (main srv o1 o2).1 = []) ∧
  (fault srv = None → Second ≤ elapsed o1 → Second ≤ elapsed o2 →
   (main srv o1 o2).2 = Returns ∧
   printed (main srv o1 o2).1 =
     ("backend: postgresql" +:+ nl) :: report "set" o1 ++ report "get" o2).
Proof.
  unfold main. rewrite NewSQLKV_succeeds.
  pose proof (main_Setup srv) as Hsetup.
  destruct (sqlKV_Setup Background {| db := SetMaxIdleConns 30 srv |})
    as [e' kv'] eqn:Hs. simpl in Hsetup. subst e'.
  split.
  - intros e He. rewrite He in Hs. unfold main_from.
    change (Setup Background {| db := SetMaxIdleConns 30 srv |})
      with (sqlKV_Setup Background {| db := SetMaxIdleConns 30 srv |}).
    by rewrite Hs.
  - intros Hnone H1 H2. rewrite Hnone in Hs.
    pose proof (whole_seconds_pos _ H1). pose proof (whole_seconds_pos _ H2).
    rewrite (main_from_set_up _ kv') by exact Hs. cbv zeta.
    rewrite !phase_runs_through by lia. cbn [fst snd default].
    split; [done |].
    rewrite !printed_app, !phase_printed.
    rewrite !bool_decide_eq_false_2 by lia. done.
Qed.

Lemma main_prints_two_reports_witness :
  let o := observed_after d {| ok := 941; err := 2 |} in
  main (server_down 0 None) o o = ([MSetup], Panics refused) ∧
  (main (server 0 None) o o).2 = Returns ∧
  length (printed (main (server 0 None) o o).1) = 11%nat.
Proof.
  intros o.
  destruct (main_prints_two_reports (server_down 0 None) o o) as [Hdown _].
  destruct (main_prints_two_reports (server 0 None) o o) as [_ Hup].
  split; [by apply Hdown |].
  destruct Hup as [Hret Hprint]; [reflexivity | vm_compute; discriminate.. |].
  split; [done |]. by rewrite Hprint.
Defined.

(** X13.  A phase that lasted less than a second stops [main] at its
    [ops] line with a division by zero.  In the write phase, [main] has
    then printed the name of the backend, the title and [total], has
    started the hundred write workers and starts no read worker; in the
    read phase, it has printed the whole report of the write phase
    before. *)
Theorem short_phase_stops_main (srv : Backend pg) (o1 o2 : Observed) :
  fault srv = None →
  (- Second < elapsed o1 < Second →
   (main srv o1 o2).2 = PanicsDivide ∧
   printed (main srv o1 o2).1 =
     ("backend: postgresql" +:+ nl) :: take 2 (report "set" o1) ∧
   goroutines (main srv o1 o2).1 =
     (λ i, MGo RunSet (WithTimeout Background (t_ctx o1) d) i 1) <$> seqZ 0 n) ∧
  (Second ≤ elapsed o1 → - Second < elapsed o2 < Second →
   (main srv o1 o2).2 = PanicsDivide ∧
   printed (main srv o1 o2).1 =
     ("backend: postgresql" +:+ nl) :: report "set" o1 ++ take 2 (report "get" o2)).
Proof.
  intros Hnone. unfold main. rewrite NewSQLKV_succeeds.
  pose proof (main_Setup srv) as Hsetup.
  destruct (sqlKV_Setup Background {| db := SetMaxIdleConns 30 srv |})
    as [e' kv'] eqn:Hs. simpl in Hsetup. subst e'. rewrite Hnone in Hs.
  rewrite (main_from_set_up _ kv') by exact Hs. cbv zeta.
  split.
  - intros H1. pose proof (whole_seconds_zero _ H1) as Hz.
    assert ((phase "set" RunSet 1 Background o1).2 = Some PanicsDivide) as Hp
      by (unfold phase; by rewrite bool_decide_eq_true_2).
    rewrite Hp. cbn [fst snd]. split; [done |]. split.
    + rewrite printed_app, phase_printed. by rewrite bool_decide_eq_true_2.
    + by rewrite goroutines_app, phase_goroutines.
  - intros H1 H2. pose proof (whole_seconds_pos _ H1).
    pose proof (whole_seconds_zero _ H2) as Hz.
    rewrite (phase_runs_through "set") by lia.
    assert ((phase "get" RunGet 2 Background o2).2 = Some PanicsDivide) as Hp
      by (unfold phase; by rewrite bool_decide_eq_true_2).
    rewrite Hp. cbn [fst snd default]. split; [done |].
    rewrite !printed_app, !phase_printed.
    rewrite bool_decide_eq_false_2 by lia. by rewrite bool_decide_eq_true_2.
Qed.

Lemma short_phase_stops_main_witness :
  let short := observed_after (Second - 1) {| ok := 941; err := 2 |} in
  let long := observed_after d {| ok := 941; err := 2 |} in
  (main (server 0 None) short long).2 = PanicsDivide ∧
  length (printed (main (server 0 None) short long).1) = 3%nat ∧
  (main (server 0 None) long short).2 = PanicsDivide ∧
  length (printed (main (server 0 None) long short).1) = 8%nat.
Proof.
  intros short long.
  pose proof (short_phase_stops_main (server 0 None) short long eq_refl) as [H1 _].
  pose proof (short_phase_stops_main (server 0 None) long short eq_refl) as [_ H2].
  assert (- Second < elapsed short < Second) as Hshort by (vm_compute; by split).
  assert (Second ≤ elapsed long) as Hlong by (vm_compute; discriminate).
  destruct (H1 Hshort) as (Hexit1 & Hprint1 & _).
  destruct (H2 Hlong Hshort) as (Hexit2 & Hprint2).
  split; [exact Hexit1 |]. split; [by rewrite Hprint1 |].
  split; [exact Hexit2 |]. by rewrite Hprint2.
Defined.

(** ** A read worker on a key that was never set *)

Lemma Stats_Err_counted (s : Stats) (e : option error) :
  errors_Is e DeadlineExceeded = false →
  Stats_Err s e = (add_err s, [Println_error e]).
Proof. intros He. unfold Stats_Err. by rewrite He. Qed.




(** ** The rate a phase reports *)

(** X15.  The rate is per whole second: a phase that lasted [q] seconds
    and a fraction divides the sum of the counters by [q], dropping the
    fraction of the time and then that of the quotient.  So [ops] times
    [q] is at most the sum, and the sum is less than [ops + 1] times [q].
    (The counters are [uint64] values whose sum fits an [int64].) *)
Theorem ops_drops_the_fraction (s : Stats) (t q : Z) :
  Stats_wf s → ok s + err s < 2 ^ 63 →
  1 ≤ q → q * Second ≤ t < (q + 1) * Second →
  whole_seconds t = q ∧
  ops s t = (ok s + err s) / q ∧
  q * ops s t ≤ ok s + err s < q * (ops s t + 1).
Proof.
  intros Hwf Hsum Hq Ht.
  assert (t / Second = q) as Hdiv.
  { symmetry. apply (Z.div_unique t Second q (t - q * Second)); [| lia].
    left. lia. }
  assert (whole_seconds t = q) as Hws.
  { unfold whole_seconds. rewrite Z.quot_div_nonneg; [done | | done].
    unfold Second in *. lia. }
  split; [done |].
  rewrite ops_div by (done || lia). rewrite Hdiv.
  split; [done |].
  pose proof (Z.mul_div_le (ok s + err s) q ltac:(lia)).
  pose proof (Z.mul_succ_div_gt (ok s + err s) q ltac:(lia)). lia.
Qed.

Lemma ops_drops_the_fraction_witness :
  let s := {| ok := 941; err := 2 |} in
  ops s (10 * Second + 999999999) = 94 ∧ ops s (10 * Second) = 94.
Proof.
  intros s.
  destruct (ops_drops_the_fraction s (10 * Second + 999999999) 10) as (_ & H1 & _);
    [vm_compute; repeat split; discriminate | reflexivity | lia
     | vm_compute; split; [discriminate | reflexivity] |].
  destruct (ops_drops_the_fraction s (10 * Second) 10) as (_ & H2 & _);
    [vm_compute; repeat split; discriminate | reflexivity | lia
     | vm_compute; split; [discriminate | reflexivity] |].
  rewrite H1, H2. split; reflexivity.
Defined.
